(** * UciSupportBot: a shallow embedding of [gmail_bot.py]

    The bot logs into an IMAP inbox, looks for today's message from UCI
    Support, picks the [mailto:] link that corresponds to the configured
    answer and sends the reply through SMTP.

    Conventions of the embedding:
    - a Python [str] is a [string]: the bytes of its UTF-8 encoding, so
      that an ASCII text is itself; a Python [bytes] is a [string] too;
    - a Python [int] is a [Z]; [len] results and positions are [nat];
    - a Python [dict] is a [gmap];
    - a call that may raise returns a [res]: [Ret v] or [Raise e];
    - the two mail servers are an oracle [Env] that fixes the outcome of
      every library call of one run; the effects that really happened are
      appended to a trace of [event]s. *)

From Stdlib Require Import ZArith Lia Ascii String Bool.
From stdpp Require Import base option list strings gmap.

Local Open Scope nat_scope.

(** ** Exceptions and fallible results *)

Inductive exn : Type :=
| UciInvalidEmail                 (* class UciInvalidEmail(Exception) *)
| ValueError
| TypeError
| LoginError                      (* imapclient.exceptions.LoginError *)
| gaierror                        (* smtplib.socket.gaierror *)
| SMTPAuthenticationError         (* smtplib.SMTPAuthenticationError *)
| SMTPRecipientsRefused           (* smtplib.SMTPRecipientsRefused *)
| ConnectionRefusedError
| OtherException (cls : string).

Inductive res (A : Type) : Type :=
| Ret (a : A)
| Raise (e : exn).
Arguments Ret {A} a.
Arguments Raise {A} e.

Global Instance exn_eq_dec : EqDecision exn.
Proof. solve_decision. Defined.

(** ** Python [str] methods used by the bot *)

Module Py.

Definition len (s : string) : nat := String.length s.

(** [c.lower()] on one character: only [A]..[Z] change. *)
Definition lower_char (c : ascii) : ascii :=
  let n := nat_of_ascii c in
  if (65 <=? n) && (n <=? 90) then ascii_of_nat (n + 32) else c.

(** [s.lower()] *)
Fixpoint lower (s : string) : string :=
  match s with
  | EmptyString => EmptyString
  | String c s' => String (lower_char c) (lower s')
  end.

(** [s.endswith(suffix)]: some tail of [s] is [suffix]. *)
Fixpoint endswith (s suffix : string) : bool :=
  if String.eqb s suffix then true
  else match s with
       | EmptyString => false
       | String _ s' => endswith s' suffix
       end.

(** The scan of [s.count(sub)] for a non-empty [sub]: occurrences are
    counted from left to right and do not overlap, so after a hit the
    next [len(sub) - 1] characters are skipped. *)
Fixpoint count_from (sub : string) (skip : nat) (s : string) : nat :=
  match s with
  | EmptyString => 0
  | String _ s' =>
      match skip with
      | S k => count_from sub k s'
      | O => if String.prefix sub s
             then S (count_from sub (String.length sub - 1) s')
             else count_from sub 0 s'
      end
  end.

(** [s.count(sub)]; the empty [sub] occurs [len(s) + 1] times. *)
Definition count (s sub : string) : nat :=
  if String.eqb sub EmptyString then S (String.length s) else count_from sub 0 s.

(** [s.split(sep)] for a one-character separator. *)
Fixpoint split (sep : ascii) (s : string) : list string :=
  match s with
  | EmptyString => [EmptyString]
  | String c s' =>
      if Ascii.eqb c sep then EmptyString :: split sep s'
      else match split sep s' with
           | w :: ws => String c w :: ws
           | [] => [String c EmptyString]
           end
  end.

(** [sep.join(l)] *)
Fixpoint join (sep : string) (l : list string) : string :=
  match l with
  | [] => EmptyString
  | [w] => w
  | w :: ws => w +:+ sep +:+ join sep ws
  end.

(** The value of a hexadecimal digit. *)
Definition hex_digit (c : ascii) : option nat :=
  let n := nat_of_ascii c in
  if (48 <=? n) && (n <=? 57) then Some (n - 48)
  else if (65 <=? n) && (n <=? 70) then Some (n - 55)
  else if (97 <=? n) && (n <=? 102) then Some (n - 87)
  else None.

(** [urllib.parse.unquote_to_bytes(s)]: every [%XY] with two hexadecimal
    digits is replaced by the byte with that code, anything else is kept. *)
Fixpoint unquote_to_bytes (s : string) : string :=
  match s with
  | EmptyString => EmptyString
  | String c tl =>
      if Ascii.eqb c "%"
      then match tl with
           | String h (String l rest) =>
               match hex_digit h, hex_digit l with
               | Some a, Some b =>
                   String (ascii_of_nat (16 * a + b)) (unquote_to_bytes rest)
               | _, _ => String c (unquote_to_bytes tl)
               end
           | _ => String c (unquote_to_bytes tl)
           end
      else String c (unquote_to_bytes tl)
  end.

(** The code of a byte lies between [lo] and [hi]. *)
Definition between (lo hi : nat) (c : ascii) : bool :=
  (lo <=? nat_of_ascii c) && (nat_of_ascii c <=? hi).

(** An ASCII character. *)
Definition is_ascii (c : ascii) : bool := nat_of_ascii c <? 128.

(** U+FFFD, the replacement character. *)
Definition replacement : string :=
  String (ascii_of_nat 239) (String (ascii_of_nat 191)
    (String (ascii_of_nat 189) EmptyString)).

(** The byte that may follow the first byte [b0] of a sequence of three or
    four bytes. *)
Definition second_byte (b0 b1 : ascii) : bool :=
  let n := nat_of_ascii b0 in
  if n =? 224 then between 160 191 b1
  else if n =? 237 then between 128 159 b1
  else if n =? 240 then between 144 191 b1
  else if n =? 244 then between 128 143 b1
  else between 128 191 b1.

(** [bs.decode('utf-8', 'replace')], as the text it gives: the well-formed
    sequences are kept, and every longest piece that only begins a
    well-formed sequence, or begins none, becomes U+FFFD. *)
Fixpoint utf8_replace (s : string) : string :=
  match s with
  | EmptyString => EmptyString
  | String b0 s1 =>
      if is_ascii b0 then String b0 (utf8_replace s1)
      else if between 194 223 b0 then
        match s1 with
        | String b1 s2 =>
            if between 128 191 b1
            then String b0 (String b1 (utf8_replace s2))
            else replacement +:+ utf8_replace s1
        | EmptyString => replacement
        end
      else if between 224 239 b0 then
        match s1 with
        | String b1 s2 =>
            if second_byte b0 b1 then
              match s2 with
              | String b2 s3 =>
                  if between 128 191 b2
                  then String b0 (String b1 (String b2 (utf8_replace s3)))
                  else replacement +:+ utf8_replace s2
              | EmptyString => replacement
              end
            else replacement +:+ utf8_replace s1
        | EmptyString => replacement
        end
      else if between 240 244 b0 then
        match s1 with
        | String b1 s2 =>
            if second_byte b0 b1 then
              match s2 with
              | String b2 s3 =>
                  if between 128 191 b2 then
                    match s3 with
                    | String b3 s4 =>
                        if between 128 191 b3
                        then String b0 (String b1 (String b2
                               (String b3 (utf8_replace s4))))
                        else replacement +:+ utf8_replace s3
                    | EmptyString => replacement
                    end
                  else replacement +:+ utf8_replace s2
              | EmptyString => replacement
              end
            else replacement +:+ utf8_replace s1
        | EmptyString => replacement
        end
      else replacement +:+ utf8_replace s1
  end.

(** The loop of [unquote]: [run] is the run of ASCII characters read so
    far; at its end it is percent-decoded and the bytes are decoded as
    UTF-8; a character that is not ASCII is kept as it is. *)
Fixpoint unquote_runs (run s : string) : string :=
  match s with
  | EmptyString => utf8_replace (unquote_to_bytes run)
  | String c s' =>
      if is_ascii c then unquote_runs (run +:+ String c EmptyString) s'
      else utf8_replace (unquote_to_bytes run)
           +:+ String c (unquote_runs EmptyString s')
  end.

(** [urllib.parse.unquote(s)] *)
Definition unquote (s : string) : string := unquote_runs EmptyString s.

End Py.

(** ** The bot object *)

Definition imap_server_domain : string := "imap.gmail.com".
Definition smtp_server_domain : string := "smtp.gmail.com".
Definition uci_domain : string := "@uci.edu".

Record UciSupportBot : Type := {
  _email : string;
  _password : string;
  _response : string;
  _email_sent : bool;
  _email_found : bool
}.

(** The [email] setter: the value stored in [_email], or [UciInvalidEmail]. *)
Definition email_setter (email_address : string) : res string :=
  if (Py.len uci_domain <? Py.len email_address)
     && Py.endswith email_address uci_domain
     && (Py.count email_address uci_domain =? 1)
  then Ret email_address
  else Raise UciInvalidEmail.

(** The [response] setter: the value stored in [_response], or [ValueError]. *)
Definition response_setter (user_response : string) : res string :=
  if String.eqb (Py.lower user_response) "not today"
     || String.eqb (Py.lower user_response) "no"
     || String.eqb (Py.lower user_response) "yes"
  then Ret (Py.lower user_response)
  else Raise ValueError.

(** [UciSupportBot.__init__] *)
Definition __init__ (email password response : string) : res UciSupportBot :=
  match email_setter email with
  | Raise e => Raise e
  | Ret e =>
      match response_setter response with
      | Raise x => Raise x
      | Ret r =>
          Ret {| _email := e; _password := password; _response := r;
                 _email_sent := false; _email_found := false |}
      end
  end.

(** [bot_summary] *)
Definition bot_summary (self : UciSupportBot) : bool * bool :=
  (_email_sent self, _email_found self).

(** ** Regular expressions: the fragment of [re] the bot uses *)

Module Re.

(** A pattern is a sequence of literal texts and named groups
    [(?P<name>.+)]. *)
Inductive item : Type :=
| Lit (text : string)
| Group (name : string).

(** [.] matches every character except the newline. *)
Definition dot (c : ascii) : bool := negb (Ascii.eqb c "010").

Fixpoint take (n : nat) (s : string) : string :=
  match n, s with
  | S n', String c s' => String c (take n' s')
  | _, _ => EmptyString
  end.

Fixpoint drop (n : nat) (s : string) : string :=
  match n, s with
  | S n', String _ s' => drop n' s'
  | _, _ => s
  end.

(** Matching a literal at the head of [s]: the rest of [s], if any. *)
Fixpoint literal (text s : string) : option string :=
  match text, s with
  | EmptyString, _ => Some s
  | String a text', String b s' =>
      if Ascii.eqb a b then literal text' s' else None
  | String _ _, EmptyString => None
  end.

(** How many characters a [.+] can take at the head of [s]. *)
Fixpoint dot_run (s : string) : nat :=
  match s with
  | String c s' => if dot c then S (dot_run s') else 0
  | EmptyString => 0
  end.

(** The captured groups in the order they close, and the number of
    characters matched. *)
Definition outcome : Type := list (string * string) * nat.

(** A greedy [.+] followed by the rest [k] of the pattern: the longest
    capture is tried first and the matcher backs off one character at a
    time, never below one character. *)
Fixpoint greedy (k : string -> option outcome) (name s : string)
    (n : nat) : option outcome :=
  match n with
  | O => None
  | S n' =>
      match k (drop n s) with
      | Some (gs, used) => Some ((name, take n s) :: gs, n + used)
      | None => greedy k name s n'
      end
  end.

(** The pattern matched at the head of [s]. *)
Fixpoint match_here (p : list item) (s : string) : option outcome :=
  match p with
  | [] => Some ([], 0)
  | Lit text :: p' =>
      match literal text s with
      | Some s' =>
          match match_here p' s' with
          | Some (gs, used) => Some (gs, String.length text + used)
          | None => None
          end
      | None => None
      end
  | Group name :: p' => greedy (match_here p') name s (dot_run s)
  end.

(** A match object: its span and its groups. *)
Record Match : Type := {
  m_start : nat;
  m_end : nat;
  m_groups : list (string * string)
}.

(** [m.groupdict()] *)
Definition groupdict (m : Match) : gmap string string :=
  list_to_map (m_groups m).

(** [m.group(name)] *)
Definition group (m : Match) (name : string) : option string :=
  groupdict m !! name.

(** The scan of [re.finditer] from position [pos] on, for a pattern that
    matches no empty text: the leftmost match is reported, the scan
    resumes where it ends ([skip] counts the characters still inside the
    last match), and matches do not overlap. *)
Fixpoint finditer_from (p : list item) (pos skip : nat) (s : string)
    : list Match :=
  match s with
  | EmptyString => []
  | String _ s' =>
      match skip with
      | S k => finditer_from p (S pos) k s'
      | O =>
          match match_here p s with
          | Some (gs, used) =>
              {| m_start := pos; m_end := pos + used; m_groups := gs |}
                :: finditer_from p (S pos) (used - 1) s'
          | None => finditer_from p (S pos) 0 s'
          end
      end
  end.

(** [re.finditer(p, s)]; the generator is modelled by the list of what it
    yields, in order. *)
Definition finditer (p : list item) (s : string) : list Match :=
  finditer_from p 0 0 s.

End Re.

(** [r'mailto:(?P<emails>.+)\?subject=(?P<subject>.+)&amp;body=(?P<body>.+)'] *)
Definition mailto_pattern : list Re.item :=
  [Re.Lit "mailto:"; Re.Group "emails"; Re.Lit "?subject=";
   Re.Group "subject"; Re.Lit "&amp;body="; Re.Group "body"].

(** ** Messages and the link extractor *)

(** A part of a message: the bytes of its payload and the charset it
    declares, if it declares one. *)
Record MailPart : Type := {
  get_payload : string;
  charset : option string
}.

(** A [pyzmail.PyzMessage], as far as the bot reads it. *)
Record PyzMessage : Type := {
  html_part : option MailPart;
  text_part : option MailPart
}.

(** [part.get_payload().decode(part.charset)].  The codecs are the
    library's: [decode payload name] is what decoding with the codec
    [name] gives, the text or the error raised ([LookupError] for an
    unknown codec, [UnicodeDecodeError] for bytes it rejects).  Without a
    charset the call is [decode(None)], which raises [TypeError]. *)
Definition part_text (decode : string -> string -> res string)
    (part : MailPart) : res string :=
  match charset part with
  | Some name => decode (get_payload part) name
  | None => Raise TypeError
  end.

(** [_parse_email] *)
Definition _parse_email (decode : string -> string -> res string)
    (email : PyzMessage) : res (option (list Re.Match)) :=
  match html_part email with
  | Some part =>
      match part_text decode part with
      | Ret html_text => Ret (Some (Re.finditer mailto_pattern html_text))
      | Raise e => Raise e
      end
  | None => Ret None
  end.

(** [{'not today': 0, 'no': 1, 'yes': 2}] *)
Definition answer_index : gmap string Z :=
  {[ "not today" := 0%Z; "no" := 1%Z; "yes" := 2%Z ]}.

(** The loop of [_parse_mailto_link]; [count] is [None] when the answer is
    not a key of the dictionary, and then [count -= 1] raises. *)
Fixpoint mailto_link_loop (count : option Z) (links : list Re.Match)
    : res (option Re.Match) :=
  match links with
  | [] => Ret None
  | mailto_link :: links' =>
      match count with
      | Some n =>
          if (n =? 0)%Z then Ret (Some mailto_link)
          else mailto_link_loop (Some (n - 1)%Z) links'
      | None => Raise TypeError
      end
  end.

(** [_parse_mailto_link] *)
Definition _parse_mailto_link (self : UciSupportBot) (links : list Re.Match)
    : res (option Re.Match) :=
  mailto_link_loop (answer_index !! _response self) links.

(** [_find_email] *)
Fixpoint _find_email (decode : string -> string -> res string)
    (self : UciSupportBot) (emails : list PyzMessage)
    : res (option Re.Match) :=
  match emails with
  | [] => Ret None
  | email :: emails' =>
      match _parse_email decode email with
      | Raise e => Raise e
      | Ret (Some parsed_links) =>
          match _parse_mailto_link self parsed_links with
          | Raise e => Raise e
          | Ret (Some email_content) => Ret (Some email_content)
          | Ret None => _find_email decode self emails'
          end
      | Ret None => _find_email decode self emails'
      end
  end.

(** ** The outside world *)

(** The message [_send_email] composes: a [MIMEMultipart] with its headers
    and the [MIMEText] parts attached to it. *)
Record MIMEText : Type := {
  payload : string;
  subtype : string
}.

Record MIMEMultipart : Type := {
  From : string;
  To : string;
  Subject : string;
  attached : list MIMEText
}.

(** Client objects: an [imapclient.IMAPClient] and an [smtplib.SMTP]. *)
Inductive IMAPClient : Type := IMAPClient_at (host : string).
Inductive SMTP : Type := SMTP_at (host : string) (port : Z).

(** What a run does to the world.  An event is recorded when the library
    call that causes it returns; a call that raises leaves no event. *)
Inductive event : Type :=
| imap_opened (host : string)
| imap_authenticated (user password : string)
| imap_folder_selected (folder : string) (readonly : bool)
| imap_closed
| smtp_opened (host : string) (port : Z)
| smtp_greeted
| smtp_tls_started
| smtp_authenticated (user password : string)
| smtp_mail_sent (from_addr : string) (to_addrs : list string) (msg : string)
| smtp_closed
| printed (line : string).

Global Instance event_eq_dec : EqDecision event.
Proof. solve_decision. Defined.

(** The outcome of every library call of one run. *)
Record Env : Type := {
  IMAPClient_new : string -> res unit;
  imap_login : string -> string -> res unit;
  imap_select_folder : string -> bool -> res unit;
  (* datetime.now().astimezone(timezone(tz)).strftime(fmt) *)
  now_strftime : string -> string -> string;
  imap_search : list string -> res (list Z);
  (* the [BODY[]] payloads of [fetch(ids, ['BODY[]']).values()], in order *)
  imap_fetch : list Z -> res (list string);
  PyzMessage_factory : string -> PyzMessage;
  (* payload.decode(charset), see [part_text] *)
  bytes_decode : string -> string -> res string;
  imap_logout : res unit;
  SMTP_new : string -> Z -> res unit;
  smtp_ehlo : res unit;
  smtp_starttls : res unit;
  smtp_login : string -> string -> res unit;
  (* email.as_string(); it raises for a header it cannot write *)
  as_string : MIMEMultipart -> res string;
  (* the refused recipients, each with the server's code and text *)
  smtp_sendmail : string -> list string -> string
                  -> res (gmap string (Z * string));
  smtp_quit : res unit
}.

(** ** Running the bot *)

(** The store of [run_bot]: the bot object, the two local variables of
    [run_bot] and the trace of the world. *)
Record state : Type := {
  self : UciSupportBot;
  imap_server : option IMAPClient;
  smtp_server : option SMTP;
  trace : list event
}.

(** Statements: they read and write the store and may raise. *)
Definition M (A : Type) : Type := state -> res A * state.

Definition ret {A} (a : A) : M A := fun st => (Ret a, st).

Definition raise {A} (e : exn) : M A := fun st => (Raise e, st).

Definition bind {A B} (m : M A) (k : A -> M B) : M B :=
  fun st =>
    match m st with
    | (Ret a, st') => k a st'
    | (Raise e, st') => (Raise e, st')
    end.

Declare Scope py_scope.
Delimit Scope py_scope with py.
Notation "x <- m ;; k" := (bind m (fun x => k))
  (at level 100, m at next level, k at level 200, right associativity)
  : py_scope.
Notation "m ;; k" := (bind m (fun _ => k))
  (at level 100, k at level 200, right associativity) : py_scope.
Local Open Scope py_scope.

(** A pure computation that may raise. *)
Definition lift {A} (r : res A) : M A := fun st => (r, st).

(** A library call with outcome [r]: its effects happen when it returns. *)
Definition call {A} (r : res A) (effects : list event) : M A :=
  fun st =>
    match r with
    | Ret a =>
        (Ret a, {| self := self st; imap_server := imap_server st;
                   smtp_server := smtp_server st;
                   trace := trace st ++ effects |})
    | Raise e => (Raise e, st)
    end.

(** [print(line)] *)
Definition print (line : string) : M unit := call (Ret tt) [printed line].

Definition get_self : M UciSupportBot := fun st => (Ret (self st), st).

Definition set_self (b : UciSupportBot) : M unit :=
  fun st => (Ret tt, {| self := b; imap_server := imap_server st;
                        smtp_server := smtp_server st; trace := trace st |}).

Definition set_imap_server (v : option IMAPClient) : M unit :=
  fun st => (Ret tt, {| self := self st; imap_server := v;
                        smtp_server := smtp_server st; trace := trace st |}).

Definition set_smtp_server (v : option SMTP) : M unit :=
  fun st => (Ret tt, {| self := self st; imap_server := imap_server st;
                        smtp_server := v; trace := trace st |}).

(** [try: body finally: final] *)
Definition try_finally {A} (body : M A) (final : M unit) : M A :=
  fun st =>
    match body st with
    | (r, st1) =>
        match final st1 with
        | (Ret _, st2) => (r, st2)
        | (Raise e, st2) => (Raise e, st2)
        end
    end.

(** [try: body except ...: handler]; [handler e] is [None] when no clause
    catches [e]. *)
Definition try_except {A} (body : M A) (handler : exn -> option (M A)) : M A :=
  fun st =>
    match body st with
    | (Ret a, st1) => (Ret a, st1)
    | (Raise e, st1) =>
        match handler e with
        | Some h => h st1
        | None => (Raise e, st1)
        end
    end.

(** [self._email_found = v] and [self._email_sent = v] *)
Definition set_email_found (v : bool) : M unit :=
  b <- get_self ;;
  set_self {| _email := _email b; _password := _password b;
              _response := _response b; _email_sent := _email_sent b;
              _email_found := v |}.

Definition set_email_sent (v : bool) : M unit :=
  b <- get_self ;;
  set_self {| _email := _email b; _password := _password b;
              _response := _response b; _email_sent := v;
              _email_found := _email_found b |}.

(** [_create_imap_server] *)
Definition _create_imap_server (env : Env) : M IMAPClient :=
  b <- get_self ;;
  call (IMAPClient_new env imap_server_domain) [imap_opened imap_server_domain] ;;
  call (imap_login env (_email b) (_password b))
       [imap_authenticated (_email b) (_password b)] ;;
  ret (IMAPClient_at imap_server_domain).

(** [_create_smtp_server] *)
Definition _create_smtp_server (env : Env) : M SMTP :=
  b <- get_self ;;
  call (SMTP_new env smtp_server_domain 587%Z) [smtp_opened smtp_server_domain 587%Z] ;;
  call (smtp_ehlo env) [smtp_greeted] ;;
  call (smtp_starttls env) [smtp_tls_started] ;;
  call (smtp_login env (_email b) (_password b))
       [smtp_authenticated (_email b) (_password b)] ;;
  ret (SMTP_at smtp_server_domain 587%Z).

(** [_get_local_time] *)
Definition _get_local_time (env : Env) (local_time : string) : string :=
  now_strftime env local_time "%d-%b-%Y".

(** [_find_emails] *)
Definition _find_emails (env : Env) (imap : IMAPClient) : M (list PyzMessage) :=
  call (imap_select_folder env "INBOX" false) [imap_folder_selected "INBOX" false] ;;
  let date_string := _get_local_time env "US/Pacific" in
  email_ids <- call (imap_search env ["FROM"; "uci@service-now.com"; "ON"; date_string]) [] ;;
  bodies <- call (imap_fetch env email_ids) [] ;;
  ret (map (PyzMessage_factory env) bodies).

(** [_send_email] *)
Definition _send_email (env : Env) (smtp : SMTP) (emails subject body : string)
    : M (gmap string (Z * string)) :=
  b <- get_self ;;
  let email :=
    {| From := _email b;
       To := Py.join ", " (Py.split "," emails);
       Subject := Py.unquote subject;
       attached := [ {| payload := Py.unquote body; subtype := "plain" |} ] |} in
  message <- lift (as_string env email) ;;
  call (smtp_sendmail env (_email b) (Py.split "," emails) message)
       [smtp_mail_sent (_email b) (Py.split "," emails) message].

(** [self._send_email(smtp_server, **email_contents.groupdict())]: the
    groups are bound to the parameters of the same names. *)
Definition send_groupdict (env : Env) (smtp : SMTP) (d : gmap string string)
    : M (gmap string (Z * string)) :=
  match d !! "emails", d !! "subject", d !! "body" with
  | Some emails, Some subject, Some body =>
      if size d =? 3 then _send_email env smtp emails subject body
      else raise TypeError
  | _, _, _ => raise TypeError
  end.

(** The [try] block of [run_bot]. *)
Definition run_bot_try (env : Env) : M unit :=
  imap <- _create_imap_server env ;;
  set_imap_server (Some imap) ;;
  smtp <- _create_smtp_server env ;;
  set_smtp_server (Some smtp) ;;
  emails <- _find_emails env imap ;;
  b <- get_self ;;
  email_contents <- lift (_find_email (bytes_decode env) b emails) ;;
  match email_contents with
  | None => ret tt
  | Some m =>
      set_email_found true ;;
      failed_emails <- send_groupdict env smtp (Re.groupdict m) ;;
      if size failed_emails =? 0 then set_email_sent true else ret tt
  end.

(** The two diagnostics of [run_bot]. *)
Definition login_diagnostic : string :=
  "UciSupportBot.run_bot: Could not connect to a imap server. Given Credentials Invalid.".
Definition connection_diagnostic : string :=
  "UCISupportBot.run_bot: Failed to establish a connection.".

(** The two [except] clauses of [run_bot]. *)
Definition run_bot_except (e : exn) : option (M unit) :=
  match e with
  | LoginError => Some (print login_diagnostic)
  | gaierror => Some (print connection_diagnostic)
  | _ => None
  end.

(** The [finally] block of [run_bot]. *)
Definition run_bot_finally (env : Env) : M unit :=
  (fun st =>
     match imap_server st with
     | Some _ => call (imap_logout env) [imap_closed] st
     | None => ret tt st
     end) ;;
  (fun st =>
     match smtp_server st with
     | Some _ => call (smtp_quit env) [smtp_closed] st
     | None => ret tt st
     end).

(** [run_bot] *)
Definition run_bot (env : Env) : M unit :=
  set_imap_server None ;;
  set_smtp_server None ;;
  try_finally (try_except (run_bot_try env) run_bot_except)
              (run_bot_finally env).

(** A bot object that has not run yet, in a world where nothing happened. *)
Definition fresh (b : UciSupportBot) : state :=
  {| self := b; imap_server := None; smtp_server := None; trace := [] |}.

(** The bot object after [run_bot] was called on it once per element of
    [envs], whatever each call returned or raised. *)
Definition run_bots (envs : list Env) (st : state) : state :=
  foldl (fun st env => snd (run_bot env st)) st envs.

(** ** Notions the properties are stated with *)

(** The number of positions of [s] at which [sub] occurs. *)
Fixpoint occurrences (sub s : string) : nat :=
  match s with
  | EmptyString => 0
  | String _ s' => (if String.prefix sub s then 1 else 0) + occurrences sub s'
  end.

(** A valid address: it ends with the domain, the domain occurs in it
    exactly once, and it is longer than the domain. *)
Definition valid_uci_address (s : string) : Prop :=
  (exists name, s = name +:+ uci_domain)
  /\ occurrences uci_domain s = 1
  /\ String.length uci_domain < String.length s.


(** The HTML text of a message: none without an HTML part, otherwise what
    decoding the part gives. *)
Definition html_text_of (decode : string -> string -> res string)
    (email : PyzMessage) : option (res string) :=
  match html_part email with
  | Some part => Some (part_text decode part)
  | None => None
  end.

(** The HTML part of the message, if there is one, can be decoded. *)
Definition decodes (decode : string -> string -> res string)
    (email : PyzMessage) : Prop :=
  forall e, html_text_of decode email <> Some (Raise e).

(** The matches of the mailto pattern in the body of a message, from left
    to right; a message without a body that can be read has none. *)
Definition mailto_matches (decode : string -> string -> res string)
    (email : PyzMessage) : list Re.Match :=
  match html_text_of decode email with
  | Some (Ret html_text) => Re.finditer mailto_pattern html_text
  | _ => []
  end.

(** The names of the groups of a pattern, in order. *)
Fixpoint group_names (p : list Re.item) : list string :=
  match p with
  | [] => []
  | Re.Lit _ :: p' => group_names p'
  | Re.Group name :: p' => name :: group_names p'
  end.

(** A text without a newline: it lies on one line. *)
Fixpoint single_line (s : string) : bool :=
  match s with
  | EmptyString => true
  | String c s' => Re.dot c && single_line s'
  end.

(** [sub] occurs somewhere in [s]. *)
Fixpoint contains (s sub : string) : bool :=
  if String.prefix sub s then true
  else match s with
       | EmptyString => false
       | String _ s' => contains s' sub
       end.

(** ** Sample data *)

(** The bot [UciSupportBot("jdoe@uci.edu", "secret", "Yes")]. *)
Definition sample_bot : UciSupportBot :=
  {| _email := "jdoe@uci.edu"; _password := "secret"; _response := "yes";
     _email_sent := false; _email_found := false |}.

(** Two links as they stand in a message, one per answer. *)
Definition sample_link1 : string :=
  "mailto:uci@service-now.com?subject=Re:Check&amp;body=Not%20today".
Definition sample_link2 : string :=
  "mailto:uci@service-now.com?subject=Re:Check&amp;body=No".

(** Whitespace, as [str.strip] sees it. *)
Definition is_space (c : ascii) : bool :=
  let n := nat_of_ascii c in
  (n =? 32) || ((9 <=? n) && (n <=? 13)) || ((28 <=? n) && (n <=? 31)).

Fixpoint lstrip (s : string) : string :=
  match s with
  | EmptyString => EmptyString
  | String c s' => if is_space c then lstrip s' else s
  end.

Fixpoint rstrip (s : string) : string :=
  match s with
  | EmptyString => EmptyString
  | String c s' =>
      match rstrip s' with
      | EmptyString => if is_space c then EmptyString else String c EmptyString
      | r => String c r
      end
  end.

(** [s.strip()] *)
Definition strip (s : string) : string := rstrip (lstrip s).

(** The destination addresses as the specification describes them: the
    recipients group percent-decoded, split at the commas, each piece
    trimmed. *)
Definition decoded_trimmed_recipients (emails : string) : list string :=
  map strip (Py.split "," (Py.unquote emails)).

(** The message [_send_email] composes for the bot [b]. *)
Definition composed (b : UciSupportBot) (emails subject body : string)
    : MIMEMultipart :=
  {| From := _email b;
     To := Py.join ", " (Py.split "," emails);
     Subject := Py.unquote subject;
     attached := [ {| payload := Py.unquote body; subtype := "plain" |} ] |}.

(** A codec table for examples: UTF-8 and ASCII texts are their own bytes
    (the samples are ASCII), any other codec is unknown. *)
Definition sample_decode (payload name : string) : res string :=
  if String.eqb name "utf-8" || String.eqb name "us-ascii"
  then Ret payload
  else Raise (OtherException "LookupError").

(** A message with the HTML text [html], declared as UTF-8. *)
Definition html_message (html : string) : PyzMessage :=
  {| html_part := Some {| get_payload := html; charset := Some "utf-8" |};
     text_part := None |}.

(** A world for examples.  The inbox holds [bodies]; a body that starts
    with [<] is an HTML message, any other is plain text.  The two logins
    and the send have the given outcomes, every other call succeeds. *)
Definition sample_env (imap_login_result smtp_login_result : res unit)
    (bodies : list string) (send_result : res (gmap string (Z * string)))
    : Env :=
  {| IMAPClient_new := fun _ => Ret tt;
     imap_login := fun _ _ => imap_login_result;
     imap_select_folder := fun _ _ => Ret tt;
     now_strftime := fun _ _ => "04-Nov-2026";
     imap_search := fun _ => Ret (map Z.of_nat (seq 1 (length bodies)));
     imap_fetch := fun _ => Ret bodies;
     PyzMessage_factory := fun raw =>
       if String.prefix "<" raw
       then html_message raw
       else {| html_part := None;
               text_part := Some {| get_payload := raw;
                                    charset := Some "us-ascii" |} |};
     bytes_decode := sample_decode;
     imap_logout := Ret tt;
     SMTP_new := fun _ _ => Ret tt;
     smtp_ehlo := Ret tt;
     smtp_starttls := Ret tt;
     smtp_login := fun _ _ => smtp_login_result;
     as_string := fun m => Ret (
       "From: " +:+ From m +:+ "; To: " +:+ To m +:+ "; Subject: "
       +:+ Subject m +:+ "; "
       +:+ Py.join "; " (map payload (attached m)));
     smtp_sendmail := fun _ _ _ => send_result;
     smtp_quit := Ret tt |}.

(** A message of UCI Support with its three links, one per line. *)
Definition sample_html : string :=
  "<a href=mailto:uci@service-now.com?subject=Re:Check&amp;body=Not%20today" +:+ String "010"
  "<a href=mailto:uci@service-now.com?subject=Re:Check&amp;body=No" +:+ String "010"
  "<a href=mailto:uci@service-now.com?subject=Re:Check&amp;body=Yes".

(** A message whose third link names two recipients, the second one
    percent-encoded and after a blank. *)
Definition sample_html_two_recipients : string :=
  "<a href=mailto:uci@service-now.com?subject=Re:Check&amp;body=Not%20today" +:+ String "010"
  "<a href=mailto:uci@service-now.com?subject=Re:Check&amp;body=No" +:+ String "010"
  "<a href=mailto:uci@service-now.com, help%40uci.edu?subject=Re:Check&amp;body=Yes".

(** One refused recipient. *)
Definition one_refused : gmap string (Z * string) :=
  {[ "uci@service-now.com" := (550%Z, "mailbox unavailable") ]}.

(** ** Notions about runs *)

(** The store when [run_bot] enters its [try] block. *)
Definition enter (st : state) : state :=
  {| self := self st; imap_server := None; smtp_server := None;
     trace := trace st |}.

(** The same store with both flags of the bot false, as the constructor
    leaves them. *)
Definition clear_flags (st : state) : state :=
  {| self := {| _email := _email (self st); _password := _password (self st);
                _response := _response (self st);
                _email_sent := false; _email_found := false |};
     imap_server := imap_server st; smtp_server := smtp_server st;
     trace := trace st |}.

(** How often an event occurs in a trace. *)
Fixpoint times (e : event) (t : list event) : nat :=
  match t with
  | [] => 0
  | x :: t' => (if decide (x = e) then 1 else 0) + times e t'
  end.

(** Both sessions can be established for the bot [b]. *)
Definition connects (env : Env) (b : UciSupportBot) : Prop :=
  IMAPClient_new env imap_server_domain = Ret tt
  /\ imap_login env (_email b) (_password b) = Ret tt
  /\ SMTP_new env smtp_server_domain 587%Z = Ret tt
  /\ smtp_ehlo env = Ret tt
  /\ smtp_starttls env = Ret tt
  /\ smtp_login env (_email b) (_password b) = Ret tt.

(** What the retrieval of today's messages gives. *)
Definition inbox (env : Env) : res (list PyzMessage) :=
  match imap_select_folder env "INBOX" false with
  | Raise e => Raise e
  | Ret _ =>
      match imap_search env ["FROM"; "uci@service-now.com"; "ON";
                             _get_local_time env "US/Pacific"] with
      | Raise e => Raise e
      | Ret email_ids =>
          match imap_fetch env email_ids with
          | Raise e => Raise e
          | Ret bodies => Ret (map (PyzMessage_factory env) bodies)
          end
      end
  end.

(** What the send operation reports for the link [m]. *)
Definition send_report (env : Env) (b : UciSupportBot) (m : Re.Match)
    : option (res (gmap string (Z * string))) :=
  match Re.group m "emails", Re.group m "subject", Re.group m "body" with
  | Some emails, Some subject, Some body =>
      Some (match as_string env (composed b emails subject body) with
            | Ret message =>
                smtp_sendmail env (_email b) (Py.split "," emails) message
            | Raise e => Raise e
            end)
  | _, _, _ => None
  end.

(** The errors the specification calls authentication or connection
    errors. *)
Definition auth_or_connection_error (e : exn) : bool :=
  match e with
  | LoginError | gaierror | SMTPAuthenticationError | ConnectionRefusedError => true
  | _ => false
  end.

(** Worlds for examples: the message with three links arrives and the
    reply is accepted; the IMAP login is refused; the SMTP login is
    refused; nothing has arrived yet; one of two recipients is refused. *)
Definition world_ok : Env :=
  sample_env (Ret tt) (Ret tt) ["no html here"; sample_html] (Ret ∅).
Definition world_imap_login_refused : Env :=
  sample_env (Raise LoginError) (Ret tt) [sample_html] (Ret ∅).
Definition world_smtp_login_refused : Env :=
  sample_env (Ret tt) (Raise SMTPAuthenticationError) [sample_html] (Ret ∅).
Definition world_empty_inbox : Env :=
  sample_env (Ret tt) (Ret tt) [] (Ret ∅).
Definition world_one_refused : Env :=
  sample_env (Ret tt) (Ret tt) [sample_html_two_recipients] (Ret one_refused).

(** The third match of [sample_html_two_recipients]. *)
Definition sample_match_two_recipients : Re.Match :=
  {| Re.m_start := 145; Re.m_end := 217;
     Re.m_groups := [("emails", "uci@service-now.com, help%40uci.edu");
                     ("subject", "Re:Check"); ("body", "Yes")] |}.

(** The store after a first run in which the reply was sent. *)
Definition after_first_reply : state :=
  snd (run_bot world_ok (fresh sample_bot)).



(** ** Percent-encoding, to state what decoding undoes *)

(** Every character of the text is ASCII. *)
Fixpoint all_ascii (s : string) : bool :=
  match s with
  | EmptyString => true
  | String c s' => Py.is_ascii c && all_ascii s'
  end.

(** The hexadecimal digit of a number below 16. *)
Definition hex_char (n : nat) : ascii :=
  ascii_of_nat (if n <? 10 then 48 + n else 55 + n).

(** A percent-encoding of a text: a character stands for itself when [safe]
    allows it and it is ASCII and not the percent sign; any other
    character is written [%XY] with the two digits of its code. *)
Fixpoint percent_encode (safe : ascii -> bool) (s : string) : string :=
  match s with
  | EmptyString => EmptyString
  | String c s' =>
      if safe c && Py.is_ascii c && negb (Ascii.eqb c "%")
      then String c (percent_encode safe s')
      else String "%"
             (String (hex_char (nat_of_ascii c / 16))
                (String (hex_char (nat_of_ascii c mod 16))
                   (percent_encode safe s')))
  end.

(** The first match of [sample_html], the link for the answer not today;
    its body is percent-encoded. *)
Definition sample_match_not_today : Re.Match :=
  {| Re.m_start := 8; Re.m_end := 72;
     Re.m_groups := [("emails", "uci@service-now.com");
                     ("subject", "Re:Check"); ("body", "Not%20today")] |}.

(** ** Further notions *)

(** The text a match of the pattern [p] with the groups [gs] covers: the
    literals of the pattern with the groups in between. *)
Fixpoint render (p : list Re.item) (gs : list (string * string)) : string :=
  match p with
  | [] => EmptyString
  | Re.Lit text :: p' => text +:+ render p' gs
  | Re.Group _ :: p' =>
      match gs with
      | (_, v) :: gs' => v +:+ render p' gs'
      | [] => EmptyString
      end
  end.

(** The pattern ends with a group. *)
Fixpoint ends_with_group (p : list Re.item) : bool :=
  match p with
  | [] => false
  | [Re.Group _] => true
  | _ :: p' => ends_with_group p'
  end.

(** The character [c] occurs in [s]. *)
Fixpoint has_char (c : ascii) (s : string) : bool :=
  match s with
  | EmptyString => false
  | String a s' => Ascii.eqb a c || has_char c s'
  end.

(** How many mails a trace records. *)
Fixpoint mails (t : list event) : nat :=
  match t with
  | [] => 0
  | smtp_mail_sent _ _ _ :: t' => S (mails t')
  | _ :: t' => mails t'
  end.

(** ** The main program *)

(** How the program stands after some iterations of its polling loop: the
    loop has ended, an exception has left the program (before the bot
    exists there is no store), or the loop is still going. *)
Inductive standing : Type :=
| Finished (st : state)
| Crashed (e : exn) (st : option state)
| Polling (st : state).

(** The [while] loop of the main program.  Each element of [ticks] is one
    iteration: [schedule.run_pending()] either finds the hourly job not yet
    due ([None]) or calls [bot.run_bot] in the world of that moment. *)
Fixpoint poll (ticks : list (option Env)) (st : state) : standing :=
  let '(email_sent, email_found) := bot_summary (self st) in
  if negb email_sent || negb email_found
  then match ticks with
       | [] => Polling st
       | None :: ticks' => poll ticks' st
       | Some env :: ticks' =>
           match run_bot env st with
           | (Ret _, st') => poll ticks' st'
           | (Raise e, st') => Crashed e (Some st')
           end
       end
  else Finished st.

(** The main program, with the two configuration values it reads, the
    world of its first run and the iterations of its loop. *)
Definition main (EMAIL PASSWORD : string) (env0 : Env)
    (ticks : list (option Env)) : standing :=
  match __init__ EMAIL PASSWORD "not today" with
  | Raise e => Crashed e None
  | Ret bot =>
      match run_bot env0 (fresh bot) with
      | (Raise e, st) => Crashed e (Some st)
      | (Ret _, st) => poll ticks st
      end
  end.

(** The events that release a session. *)
Definition is_release (e : event) : bool :=
  match e with
  | imap_closed | smtp_closed => true
  | _ => false
  end.

(** How often the character [c] occurs in [s]. *)
Fixpoint count_char (c : ascii) (s : string) : nat :=
  match s with
  | EmptyString => 0
  | String a s' => (if Ascii.eqb a c then 1 else 0) + count_char c s'
  end.

(** The sent flag is only true together with the found flag. *)
Definition sent_implies_found (b : UciSupportBot) : Prop :=
  _email_sent b = true -> _email_found b = true.

(** A world like [world_ok] in which the IMAP logout fails. *)
Definition world_logout_fails : Env :=
  {| IMAPClient_new := IMAPClient_new world_ok;
     imap_login := imap_login world_ok;
     imap_select_folder := imap_select_folder world_ok;
     now_strftime := now_strftime world_ok;
     imap_search := imap_search world_ok;
     imap_fetch := imap_fetch world_ok;
     PyzMessage_factory := PyzMessage_factory world_ok;
     bytes_decode := bytes_decode world_ok;
     imap_logout := Raise (OtherException "IMAP4.abort");
     SMTP_new := SMTP_new world_ok;
     smtp_ehlo := smtp_ehlo world_ok;
     smtp_starttls := smtp_starttls world_ok;
     smtp_login := smtp_login world_ok;
     as_string := as_string world_ok;
     smtp_sendmail := smtp_sendmail world_ok;
     smtp_quit := smtp_quit world_ok |}.

(** The bot of the main program for the sample account. *)
Definition main_bot : UciSupportBot :=
  {| _email := "jdoe@uci.edu"; _password := "secret";
     _response := "not today"; _email_sent := false; _email_found := false |}.

(** * Properties *)

(** ** Strings *)

Lemma string_eqb_true (a b : string) : String.eqb a b = true <-> a = b.
Proof. apply String.eqb_eq. Qed.

Lemma prefix_app (p s : string) :
  String.prefix p s = true -> exists r, s = p +:+ r.
Proof.
  revert s. induction p as [|a p IH]; intros s H.
  - exists s. reflexivity.
  - destruct s as [|b s]; simpl in H; [discriminate|].
    destruct (ascii_dec a b) as [->|]; [|discriminate].
    destruct (IH _ H) as [r ->]. exists r. reflexivity.
Qed.

Lemma endswith_refl (s : string) : Py.endswith s s = true.
Proof. destruct s; cbn [Py.endswith]; rewrite String.eqb_refl; reflexivity. Qed.

Lemma endswith_spec (s suffix : string) :
  Py.endswith s suffix = true <-> exists p, s = p +:+ suffix.
Proof.
  split.
  - induction s as [|c s IH]; cbn [Py.endswith].
    + destruct (String.eqb_spec EmptyString suffix) as [<-|]; [|done].
      intros _. exists EmptyString. reflexivity.
    + destruct (String.eqb_spec (String c s) suffix) as [<-|].
      * intros _. exists EmptyString. reflexivity.
      * intros H. destruct (IH H) as [p ->]. exists (String c p). reflexivity.
  - intros [p ->]. induction p as [|c p IH].
    + apply endswith_refl.
    + change (String c p +:+ suffix) with (String c (p +:+ suffix)).
      cbn [Py.endswith].
      destruct (String.eqb (String c (p +:+ suffix)) suffix); [reflexivity|].
      exact IH.
Qed.

(** On [uci_domain], whose first character does not occur again in it, the
    scan of [count] finds every occurrence. *)
Lemma count_from_uci_domain (n : nat) : forall s : string,
  String.length s <= n ->
  Py.count_from uci_domain 0 s = occurrences uci_domain s.
Proof.
  induction n as [|n IH]; intros s Hlen.
  - destruct s; simpl in Hlen; [reflexivity | lia].
  - destruct s as [|c s]; [reflexivity|].
    cbn [Py.count_from occurrences].
    destruct (String.prefix uci_domain (String c s)) eqn:Hp.
    + destruct (prefix_app _ _ Hp) as [r Hr].
      simpl in Hr. injection Hr as -> ->. simpl in Hlen.
      simpl. f_equal. apply IH. lia.
    + simpl in Hlen. rewrite IH by lia. reflexivity.
Qed.

Lemma count_uci_domain (s : string) :
  Py.count s uci_domain = occurrences uci_domain s.
Proof. unfold Py.count. cbn. apply (count_from_uci_domain (String.length s)). lia. Qed.

(** ** The address setter *)

Lemma email_setter_cases (s : string) :
  email_setter s = Ret s \/ email_setter s = Raise UciInvalidEmail.
Proof. unfold email_setter. destruct (_ && _ && _); auto. Qed.

(** C8. The address setter stores its argument exactly when the argument
    ends with [@uci.edu], contains [@uci.edu] exactly once and is longer than
    [@uci.edu]; on every other argument it raises [UciInvalidEmail]. *)
Theorem email_setter_valid_iff (email_address : string) :
  (email_setter email_address = Ret email_address
     <-> valid_uci_address email_address)
  /\ (email_setter email_address = Raise UciInvalidEmail
     <-> ~ valid_uci_address email_address).
Proof.
  assert (Hiff : email_setter email_address = Ret email_address
                 <-> valid_uci_address email_address).
  { unfold email_setter, valid_uci_address, Py.len.
    rewrite count_uci_domain.
    destruct (Nat.ltb_spec (String.length uci_domain) (String.length email_address)) as [Hl|Hl];
      destruct (Py.endswith email_address uci_domain) eqn:He;
      destruct (Nat.eqb_spec (occurrences uci_domain email_address) 1) as [Ho|Ho];
      cbn [andb]; split; try discriminate; try (intros (_ & ? & ?); lia).
    - intros _. split; [|split]; auto. apply endswith_spec, He.
    - intros (Hx & _). apply endswith_spec in Hx. congruence.
    - intros (Hx & _). apply endswith_spec in Hx. congruence. }
  split; [exact Hiff|].
  destruct (email_setter_cases email_address) as [H|H]; rewrite H.
  - split; [discriminate|]. intros Hn. exfalso. apply Hn, Hiff, H.
  - split; [|reflexivity]. intros _ Hv. apply Hiff in Hv. congruence.
Qed.

(** ** The pattern scan *)

Section Scan.

Variable p : list Re.item.

(** A match never starts before the position the scan has reached. *)
Lemma finditer_from_start (s : string) : forall pos skip x,
  x ∈ Re.finditer_from p pos skip s -> pos + skip <= Re.m_start x.
Proof.
  induction s as [|c s IH]; intros pos skip x Hx; cbn [Re.finditer_from] in Hx.
  - inversion Hx.
  - destruct skip as [|k].
    + destruct (Re.match_here p (String c s)) as [[gs used]|].
      * apply elem_of_cons in Hx as [->|Hx]; [simpl; lia|].
        apply IH in Hx. lia.
      * apply IH in Hx. lia.
    + apply IH in Hx. lia.
Qed.

(** Matches come in the order of appearance and do not overlap: a later
    match starts where an earlier one has ended, or further right. *)
Lemma finditer_from_ordered (s : string) : forall pos skip i j x y,
  i < j ->
  Re.finditer_from p pos skip s !! i = Some x ->
  Re.finditer_from p pos skip s !! j = Some y ->
  Re.m_end x <= Re.m_start y.
Proof.
  induction s as [|c s IH]; intros pos skip i j x y Hij Hi Hj;
    cbn [Re.finditer_from] in Hi, Hj.
  - discriminate.
  - destruct skip as [|k]; [|eauto].
    destruct (Re.match_here p (String c s)) as [[gs used]|]; [|eauto].
    destruct j as [|j]; [lia|]. cbn in Hj.
    destruct i as [|i]; cbn in Hi.
    + injection Hi as <-. cbn.
      apply list_elem_of_lookup_2, finditer_from_start in Hj. lia.
    + apply (IH (S pos) (used - 1) i j); [lia|assumption..].
Qed.

(** Every match the scan reports is a match of the pattern at its start
    position, and its end is where that match ends. *)
Lemma finditer_from_sound (s : string) : forall pos skip x,
  x ∈ Re.finditer_from p pos skip s ->
  Re.match_here p (Re.drop (Re.m_start x - pos) s)
    = Some (Re.m_groups x, Re.m_end x - Re.m_start x).
Proof.
  induction s as [|c s IH]; intros pos skip x Hx; cbn [Re.finditer_from] in Hx.
  - inversion Hx.
  - assert (Hrest : forall k, x ∈ Re.finditer_from p (S pos) k s ->
              Re.match_here p (Re.drop (Re.m_start x - pos) (String c s))
                = Some (Re.m_groups x, Re.m_end x - Re.m_start x)).
    { intros k Hk. pose proof (finditer_from_start _ _ _ _ Hk) as Hge.
      replace (Re.m_start x - pos) with (S (Re.m_start x - S pos)) by lia.
      exact (IH _ _ _ Hk). }
    destruct skip as [|k]; [|eauto].
    destruct (Re.match_here p (String c s)) as [[gs used]|] eqn:Hm; [|eauto].
    apply elem_of_cons in Hx as [->|Hx]; [|eauto].
    cbn. rewrite Nat.sub_diag. cbn. rewrite Hm. f_equal. f_equal. lia.
Qed.

(** The groups of a match are those of the pattern, in order. *)
Lemma greedy_names (k : string -> option Re.outcome) (names : list string)
    (name s : string) :
  (forall s' gs' used', k s' = Some (gs', used') -> gs'.*1 = names) ->
  forall n gs used,
    Re.greedy k name s n = Some (gs, used) -> gs.*1 = name :: names.
Proof.
  intros Hk n. induction n as [|n IHn]; intros gs used; cbn [Re.greedy].
  - discriminate.
  - destruct (k (Re.drop (S n) s)) as [[gs' used']|] eqn:H'; [|apply IHn].
    intros H. simplify_eq. cbn [fmap list_fmap fst]. f_equal. eauto.
Qed.

Lemma match_here_names : forall s gs used,
  Re.match_here p s = Some (gs, used) -> gs.*1 = group_names p.
Proof.
  induction p as [|[text|name] p' IH]; intros s gs used H;
    cbn [Re.match_here group_names] in *.
  - by simplify_eq.
  - destruct (Re.literal text s) as [s'|]; [|discriminate].
    destruct (Re.match_here p' s') as [[gs' used']|] eqn:H'; [|discriminate].
    simplify_eq. eauto.
  - eapply greedy_names; [exact IH | exact H].
Qed.

End Scan.

Lemma finditer_ordered (p : list Re.item) (s : string) i j x y :
  i < j ->
  Re.finditer p s !! i = Some x -> Re.finditer p s !! j = Some y ->
  Re.m_end x <= Re.m_start y.
Proof. apply finditer_from_ordered. Qed.

Lemma finditer_sound (p : list Re.item) (s : string) x :
  x ∈ Re.finditer p s ->
  Re.match_here p (Re.drop (Re.m_start x) s)
    = Some (Re.m_groups x, Re.m_end x - Re.m_start x).
Proof.
  intros H. apply finditer_from_sound in H.
  rewrite Nat.sub_0_r in H. exact H.
Qed.

(** A match of the mailto pattern has exactly the three groups. *)
Lemma mailto_groups (s : string) (x : Re.Match) :
  x ∈ Re.finditer mailto_pattern s ->
  exists emails subject body,
    Re.m_groups x = [("emails", emails); ("subject", subject); ("body", body)].
Proof.
  intros H. apply finditer_sound, match_here_names in H. cbn in H.
  destruct (Re.m_groups x) as [|[n1 e] [|[n2 su] [|[n3 b] [|? ?]]]];
    try discriminate.
  cbn in H. injection H as -> -> ->. eauto.
Qed.

(** ** The link extractor *)

Lemma response_setter_values (user_response r : string) :
  response_setter user_response = Ret r ->
  r = "not today" \/ r = "no" \/ r = "yes".
Proof.
  unfold response_setter.
  destruct (String.eqb_spec (Py.lower user_response) "not today") as [->|];
    [intros [= <-]; auto|].
  destruct (String.eqb_spec (Py.lower user_response) "no") as [->|];
    [intros [= <-]; auto|].
  destruct (String.eqb_spec (Py.lower user_response) "yes") as [->|];
    [intros [= <-]; auto|].
  discriminate.
Qed.



Section Extractor.

Variable decode : string -> string -> res string.
Variables (b : UciSupportBot) (i : nat).
Hypothesis index_of_answer : answer_index !! _response b = Some (Z.of_nat i).





Lemma decodes_otherwise (m : PyzMessage) :
  (forall e, html_text_of decode m <> Some (Raise e)) -> decodes decode m.
Proof. intros H e. apply H. Qed.






End Extractor.





(** C9. A message without an HTML part is skipped: the scan is not even
    run on it, it has no matches whatever its plain text is, the extractor
    gives the same result with and without it, and alone it gives [None],
    not an exception. *)
Theorem no_html_part_skipped (decode : string -> string -> res string)
    (b : UciSupportBot) (text : option MailPart)
    (pre post : list PyzMessage) :
  let email := {| html_part := None; text_part := text |} in
  _parse_email decode email = Ret None
  /\ mailto_matches decode email = []
  /\ _find_email decode b (pre ++ email :: post)
     = _find_email decode b (pre ++ post)
  /\ _find_email decode b [email] = Ret None.
Proof.
  cbn. repeat split.
  induction pre as [|m pre IH]; [reflexivity|].
  cbn [app _find_email]. rewrite IH. reflexivity.
Qed.

(** C10. Two well-formed links, each matched alone as one whole link, give
    a single match when they stand on one line: the [emails] group of that
    match runs from the recipients of the first link into the second
    link. *)
Theorem two_links_on_one_line :
  exists link1 link2 : string,
    let line := link1 +:+ " " +:+ link2 in
    single_line line = true
    /\ (exists m1, Re.finditer mailto_pattern link1 = [m1]
                   /\ Re.m_start m1 = 0 /\ Re.m_end m1 = String.length link1)
    /\ (exists m2, Re.finditer mailto_pattern link2 = [m2]
                   /\ Re.m_start m2 = 0 /\ Re.m_end m2 = String.length link2)
    /\ exists m,
         Re.finditer mailto_pattern line = [m]
         /\ Re.group m "emails"
            = Some ("uci@service-now.com?subject=Re:Check&amp;body=Not%20today"
                    +:+ " mailto:uci@service-now.com")
         /\ Re.group m "subject" = Some "Re:Check"
         /\ Re.group m "body" = Some "No".
Proof.
  exists sample_link1, sample_link2. cbn zeta.
  split; [by vm_compute|].
  split; [eexists; by vm_compute|].
  split; [eexists; by vm_compute|].
  eexists. by vm_compute.
Qed.

(** ** Composing and sending the reply *)

Lemma split_nonempty (sep : ascii) (s : string) : Py.split sep s <> [].
Proof.
  destruct s as [|c s]; cbn [Py.split]; [done|].
  destruct (Ascii.eqb c sep); [done|].
  by destruct (Py.split sep s).
Qed.

(** The pieces [split] returns are the text between the commas, unchanged:
    putting the commas back gives the text again. *)
Lemma join_split (s : string) : Py.join "," (Py.split "," s) = s.
Proof.
  induction s as [|c s IH]; [reflexivity|].
  cbn [Py.split]. pose proof (split_nonempty "," s) as Hne.
  destruct (Ascii.eqb_spec c ",") as [->|_].
  - destruct (Py.split "," s) as [|w ws]; [done|].
    change (Py.join "," (EmptyString :: w :: ws))
      with (String "," (Py.join "," (w :: ws))).
    by rewrite IH.
  - destruct (Py.split "," s) as [|w ws]; [done|].
    rewrite <- IH. by destruct ws.
Qed.

(** [_send_email] composes the message, writes it out and makes one call
    of [sendmail]; when the message cannot be written out, the error is
    raised and nothing is sent. *)
Lemma send_email_call (env : Env) (smtp : SMTP) (emails subject body : string)
    (st : state) :
  _send_email env smtp emails subject body st
  = match as_string env (composed (self st) emails subject body) with
    | Ret message =>
        call (smtp_sendmail env (_email (self st)) (Py.split "," emails)
                message)
             [smtp_mail_sent (_email (self st)) (Py.split "," emails) message]
             st
    | Raise e => (Raise e, st)
    end.
Proof.
  unfold _send_email, bind, get_self, lift, composed.
  by destruct (as_string env _).
Qed.

Lemma groupdict_mailto (x : Re.Match) (emails subject body : string) :
  Re.m_groups x = [("emails", emails); ("subject", subject); ("body", body)] ->
  Re.groupdict x !! "emails" = Some emails
  /\ Re.groupdict x !! "subject" = Some subject
  /\ Re.groupdict x !! "body" = Some body
  /\ size (Re.groupdict x) = 3.
Proof. unfold Re.groupdict. intros ->. by vm_compute. Qed.

(** *** What [unquote] undoes *)

Lemma append_empty (a : string) : a +:+ EmptyString = a.
Proof.
  induction a as [|c a IH]; [reflexivity|].
  change (String c (a +:+ EmptyString) = String c a). by f_equal.
Qed.

Lemma append_assoc (a b c : string) : (a +:+ b) +:+ c = a +:+ (b +:+ c).
Proof.
  induction a as [|x a IH]; [reflexivity|].
  change (String x ((a +:+ b) +:+ c) = String x (a +:+ (b +:+ c))).
  by f_equal.
Qed.

Lemma all_ascii_app (a b : string) :
  all_ascii (a +:+ b) = all_ascii a && all_ascii b.
Proof.
  induction a as [|x a IH]; [reflexivity|].
  change (Py.is_ascii x && all_ascii (a +:+ b)
          = Py.is_ascii x && all_ascii a && all_ascii b).
  by rewrite IH, andb_assoc.
Qed.

(** Decoding UTF-8 changes nothing in an ASCII text. *)
Lemma utf8_replace_ascii (s : string) :
  all_ascii s = true -> Py.utf8_replace s = s.
Proof.
  induction s as [|c s IH]; [reflexivity|].
  cbn [all_ascii Py.utf8_replace]. intros [Hc Hs]%andb_prop.
  by rewrite Hc, IH.
Qed.

(** On an ASCII text, [unquote] has a single run to decode. *)
Lemma unquote_runs_ascii (s : string) : forall run,
  all_ascii s = true ->
  Py.unquote_runs run s = Py.utf8_replace (Py.unquote_to_bytes (run +:+ s)).
Proof.
  induction s as [|c s IH]; intros run; cbn [all_ascii Py.unquote_runs].
  - by rewrite append_empty.
  - intros [Hc Hs]%andb_prop. rewrite Hc, IH by done.
    by rewrite append_assoc.
Qed.

(** The two digits written for a character give the character back. *)
Lemma unquote_escape (c : ascii) (rest : string) :
  Py.unquote_to_bytes
    (String "%" (String (hex_char (nat_of_ascii c / 16))
       (String (hex_char (nat_of_ascii c mod 16)) rest)))
  = String c (Py.unquote_to_bytes rest).
Proof. destruct c as [[] [] [] [] [] [] [] []]; reflexivity. Qed.

Lemma hex_char_ascii (c : ascii) :
  Py.is_ascii (hex_char (nat_of_ascii c / 16)) = true
  /\ Py.is_ascii (hex_char (nat_of_ascii c mod 16)) = true.
Proof. destruct c as [[] [] [] [] [] [] [] []]; split; reflexivity. Qed.

Lemma unquote_to_bytes_encode (safe : ascii -> bool) (s : string) :
  Py.unquote_to_bytes (percent_encode safe s) = s.
Proof.
  induction s as [|c s IH]; [reflexivity|]. cbn [percent_encode].
  destruct (safe c && Py.is_ascii c && negb (Ascii.eqb c "%")) eqn:Hk.
  - apply andb_prop in Hk as [_ Hp]. apply negb_true_iff in Hp.
    cbn [Py.unquote_to_bytes]. by rewrite Hp, IH.
  - by rewrite unquote_escape, IH.
Qed.

Lemma percent_encode_ascii (safe : ascii -> bool) (s : string) :
  all_ascii (percent_encode safe s) = true.
Proof.
  induction s as [|c s IH]; [reflexivity|]. cbn [percent_encode].
  destruct (safe c && Py.is_ascii c && negb (Ascii.eqb c "%")) eqn:Hk.
  - apply andb_prop in Hk as [[_ Ha]%andb_prop _].
    cbn [all_ascii]. by rewrite Ha, IH.
  - destruct (hex_char_ascii c) as [Hh Hl].
    cbn [all_ascii]. by rewrite Hh, Hl, IH.
Qed.

(** [unquote] undoes one percent-encoding: it gives the encoded bytes,
    read as UTF-8. *)
Lemma unquote_percent_encode (safe : ascii -> bool) (s : string) :
  Py.unquote (percent_encode safe s) = Py.utf8_replace s.
Proof.
  unfold Py.unquote. rewrite unquote_runs_ascii by apply percent_encode_ascii.
  change (EmptyString +:+ percent_encode safe s) with (percent_encode safe s).
  by rewrite unquote_to_bytes_encode.
Qed.

(** C2, as the code has it.  For every match of the mailto pattern, the
    reply is composed with the subject header and the text part being the
    subject and body groups percent-decoded once: a group that is the
    percent-encoding of an ASCII text gives that text, and a group that was
    encoded twice gives the text encoded once.  The destination addresses
    are the pieces of the recipients group between its commas, unchanged
    (putting the commas back gives the group again): they are neither
    percent-decoded nor trimmed; the [To] header is these pieces joined
    with a comma and a blank.  When the message can be written out it is
    sent with one call of [sendmail]; otherwise the error is raised and
    nothing is sent. *)
Theorem send_email_decodes_subject_and_body (env : Env) (smtp : SMTP)
    (st : state) (html_text : string) (m : Re.Match) :
  m ∈ Re.finditer mailto_pattern html_text ->
  exists emails subject body,
    Re.group m "emails" = Some emails
    /\ Re.group m "subject" = Some subject
    /\ Re.group m "body" = Some body
    /\ let email :=
         {| From := _email (self st);
            To := Py.join ", " (Py.split "," emails);
            Subject := Py.unquote subject;
            attached := [ {| payload := Py.unquote body;
                             subtype := "plain" |} ] |} in
       send_groupdict env smtp (Re.groupdict m) st
       = match as_string env email with
         | Ret message =>
             call (smtp_sendmail env (_email (self st))
                     (Py.split "," emails) message)
                  [smtp_mail_sent (_email (self st))
                     (Py.split "," emails) message] st
         | Raise e => (Raise e, st)
         end
       /\ Py.join "," (Py.split "," emails) = emails
       /\ (forall safe text,
             all_ascii text = true ->
             (subject = percent_encode safe text -> Subject email = text)
             /\ (body = percent_encode safe text ->
                 map payload (attached email) = [text]))
       /\ (forall safe safe' text,
             (subject = percent_encode safe (percent_encode safe' text) ->
              Subject email = percent_encode safe' text)
             /\ (body = percent_encode safe (percent_encode safe' text) ->
                 map payload (attached email) = [percent_encode safe' text])).
Proof.
  intros Hm. destruct (mailto_groups _ _ Hm) as (emails & subject & body & Hg).
  destruct (groupdict_mailto _ _ _ _ Hg) as (He & Hs & Hb & Hsize).
  exists emails, subject, body. unfold Re.group.
  split; [exact He|]. split; [exact Hs|]. split; [exact Hb|].
  cbn zeta. cbn [Subject attached map payload].
  split; [|split; [apply join_split|split]].
  - unfold send_groupdict. rewrite He, Hs, Hb, Hsize. cbn [Nat.eqb].
    rewrite send_email_call. reflexivity.
  - intros safe text Ha.
    split; intros ->; rewrite unquote_percent_encode;
      by rewrite utf8_replace_ascii.
  - intros safe safe' text.
    split; intros ->; rewrite unquote_percent_encode;
      by rewrite utf8_replace_ascii by apply percent_encode_ascii.
Qed.

(** Decoding once is not decoding until nothing changes, and an escaped
    byte that is not UTF-8 becomes U+FFFD. *)
Example unquote_once :
  Py.unquote "Re%2541" = "Re%41"
  /\ Py.unquote (Py.unquote "Re%2541") = "ReA"
  /\ Py.unquote "caf%E9" = "caf" +:+ Py.replacement.
Proof. by vm_compute. Qed.

Lemma send_email_decodes_subject_and_body_witness :
  send_groupdict world_ok (SMTP_at smtp_server_domain 587)
    (Re.groupdict sample_match_not_today) (fresh sample_bot)
  = (Ret ∅,
     {| self := sample_bot; imap_server := None; smtp_server := None;
        trace := [smtp_mail_sent "jdoe@uci.edu" ["uci@service-now.com"]
                    "From: jdoe@uci.edu; To: uci@service-now.com; Subject: Re:Check; Not today"] |}).
Proof.
  destruct (send_email_decodes_subject_and_body world_ok
              (SMTP_at smtp_server_domain 587) (fresh sample_bot)
              sample_html sample_match_not_today)
    as (emails & subject & body & He & Hs & Hb & Hsend & _).
  - vm_compute. apply list_elem_of_here.
  - vm_compute in He, Hs, Hb.
    injection He as <-. injection Hs as <-. injection Hb as <-.
    rewrite Hsend. by vm_compute.
Defined.

(** C2, as the specification has it, fails: in a run on a message whose
    third link names two recipients, the second percent-encoded and after a
    blank, the addresses handed to [sendmail] are the raw pieces, not the
    decoded and trimmed ones. *)
Lemma recipients_neither_decoded_nor_trimmed :
  exists to_addrs msg,
    smtp_mail_sent "jdoe@uci.edu" to_addrs msg
      ∈ trace (snd (run_bot (sample_env (Ret tt) (Ret tt)
                               [sample_html_two_recipients] (Ret ∅))
                            (fresh sample_bot)))
    /\ to_addrs = ["uci@service-now.com"; " help%40uci.edu"]
    /\ decoded_trimmed_recipients "uci@service-now.com, help%40uci.edu"
       = ["uci@service-now.com"; "help@uci.edu"]
    /\ to_addrs
       <> decoded_trimmed_recipients "uci@service-now.com, help%40uci.edu".
Proof.
  eexists _, _. split; [|split; [reflexivity|split; [by vm_compute|]]].
  - vm_compute. do 7 apply list_elem_of_further. apply list_elem_of_here.
  - by vm_compute.
Qed.

(** ** Runs *)

Lemma times_app (e : event) (t1 t2 : list event) :
  times e (t1 ++ t2) = times e t1 + times e t2.
Proof. induction t1 as [|x t1 IH]; cbn; [reflexivity | rewrite IH; lia]. Qed.

(** Symbolic execution of a run: unfold the statements, then follow the
    outcomes of the library calls one after the other. *)
Ltac unfold_run :=
  unfold run_bot, try_finally, try_except, run_bot_try, run_bot_finally,
    run_bot_except, _create_imap_server, _create_smtp_server, _find_emails,
    send_groupdict, _send_email, set_email_found, set_email_sent, print,
    bind, call, lift, ret, raise, get_self, set_self, set_imap_server,
    set_smtp_server, enter, clear_flags in *;
  cbn [self imap_server smtp_server trace fst snd _email _password _response
       _email_sent _email_found] in *.

Ltac run_step :=
  match goal with
  | H : ?x = _ |- context [match ?x with _ => _ end] => rewrite H
  | |- context [match ?x with _ => _ end] =>
      lazymatch x with
      | context [match _ with _ => _ end] => fail
      | _ => destruct x eqn:?
      end
  end;
  cbn [self imap_server smtp_server trace fst snd _email _password _response
       _email_sent _email_found] in *.

Ltac run_all := unfold_run; repeat run_step.

(** The events a run has added to the trace it started with. *)
Ltac new_events :=
  rewrite <- ?app_assoc;
  first [ eexists; split; [reflexivity|]
        | exists []; split; [by rewrite app_nil_r|] ];
  cbn [times app fst].

(** Comparing two events that are given by their constructors. *)
Ltac decide_events :=
  repeat match goal with
    | |- context [decide (?a = ?b)] =>
        first [ rewrite (decide_True (P := a = b)) by reflexivity
              | rewrite (decide_False (P := a = b)) by discriminate ]
    end;
  cbn [Nat.add].

Ltac in_trace :=
  solve [ repeat first [ apply list_elem_of_here | apply list_elem_of_further ] ].

Ltac not_in_trace :=
  let Hin := fresh "Hin" in
  intros Hin;
  repeat (apply elem_of_cons in Hin as [Hin|Hin]; [discriminate Hin|]);
  by apply elem_of_nil in Hin.

Ltac trace_done := new_events; decide_events; repeat split; try lia.

(** C7, as the code has it.  When the two release calls do not fail, every
    run, on whatever path it ends, closes each session that was established
    (connection made and login accepted, so that [run_bot] holds it)
    exactly once, and closes nothing else. *)
Theorem established_sessions_released (env : Env) (st : state) :
  imap_logout env = Ret tt ->
  smtp_quit env = Ret tt ->
  exists t,
    trace (snd (run_bot env st)) = trace st ++ t
    /\ times imap_closed t
       = times (imap_authenticated (_email (self st)) (_password (self st))) t
    /\ times smtp_closed t
       = times (smtp_authenticated (_email (self st)) (_password (self st))) t
    /\ times imap_closed t <= 1
    /\ times smtp_closed t <= 1.
Proof.
  intros Hlogout Hquit. run_all; trace_done.
Qed.

Lemma established_sessions_released_witness :
  exists t,
    trace (snd (run_bot world_ok (fresh sample_bot))) = t
    /\ times imap_closed t = 1
    /\ times smtp_closed t = 1.
Proof.
  destruct (established_sessions_released world_ok (fresh sample_bot))
    as (t & Ht & Hi & Hs & _); [reflexivity | reflexivity |].
  exists t. cbn [fresh trace app] in Ht.
  split; [exact Ht|].
  rewrite Hi, Hs.
  assert (Hrun : trace (snd (run_bot world_ok (fresh sample_bot)))
                 = [imap_opened "imap.gmail.com";
                    imap_authenticated "jdoe@uci.edu" "secret";
                    smtp_opened "smtp.gmail.com" 587; smtp_greeted;
                    smtp_tls_started;
                    smtp_authenticated "jdoe@uci.edu" "secret";
                    imap_folder_selected "INBOX" false;
                    smtp_mail_sent "jdoe@uci.edu" ["uci@service-now.com"]
                      "From: jdoe@uci.edu; To: uci@service-now.com; Subject: Re:Check; Yes";
                    imap_closed; smtp_closed])
    by (vm_compute; reflexivity).
  rewrite Ht in Hrun. rewrite Hrun. split; reflexivity.
Defined.

(** C7, as the specification has it, fails on the path of a handled
    authentication error: the IMAP connection is opened, the login is
    refused, the run prints its diagnostic and returns normally, and the
    connection has not been closed. *)
Lemma refused_login_leaves_connection_open :
  fst (run_bot world_imap_login_refused (fresh sample_bot)) = Ret tt
  /\ trace (snd (run_bot world_imap_login_refused (fresh sample_bot)))
     = [imap_opened imap_server_domain; printed login_diagnostic]
  /\ times (imap_opened imap_server_domain)
       (trace (snd (run_bot world_imap_login_refused (fresh sample_bot)))) = 1
  /\ times imap_closed
       (trace (snd (run_bot world_imap_login_refused (fresh sample_bot)))) = 0.
Proof. by vm_compute. Qed.

(** C6, as the code has it.  When the [try] block raises [e] and the two
    release calls do not fail: a [LoginError] or a [gaierror] is caught,
    its diagnostic is printed and the run returns normally; every other
    exception goes on to the caller and nothing is printed; in all cases
    the established sessions have been closed. *)
Theorem handled_errors_caught (env : Env) (st : state) (e : exn) :
  fst (run_bot_try env (enter st)) = Raise e ->
  imap_logout env = Ret tt ->
  smtp_quit env = Ret tt ->
  exists t,
    trace (snd (run_bot env st)) = trace st ++ t
    /\ times imap_closed t
       = times (imap_authenticated (_email (self st)) (_password (self st))) t
    /\ times smtp_closed t
       = times (smtp_authenticated (_email (self st)) (_password (self st))) t
    /\ (e = LoginError ->
        fst (run_bot env st) = Ret tt /\ printed login_diagnostic ∈ t)
    /\ (e = gaierror ->
        fst (run_bot env st) = Ret tt /\ printed connection_diagnostic ∈ t)
    /\ (e <> LoginError -> e <> gaierror ->
        fst (run_bot env st) = Raise e /\ forall line, printed line ∉ t).
Proof.
  intros Htry Hlogout Hquit. revert Htry. run_all; intros Htry;
    try discriminate Htry; injection Htry as <-; new_events; decide_events;
    (split; [reflexivity|]); (split; [reflexivity|]);
    (split; [|split]); try done; intros;
    (split; [reflexivity|]); first [in_trace | intros line; not_in_trace].
Qed.

Lemma handled_errors_caught_witness :
  fst (run_bot world_imap_login_refused (fresh sample_bot)) = Ret tt
  /\ exists t,
       trace (snd (run_bot world_imap_login_refused (fresh sample_bot))) = t
       /\ printed login_diagnostic ∈ t.
Proof.
  destruct (handled_errors_caught world_imap_login_refused
              (fresh sample_bot) LoginError)
    as (t & Ht & _ & _ & Hlogin & _); [reflexivity..|].
  destruct (Hlogin eq_refl) as [Hret Hprinted].
  split; [exact Hret|]. exists t. split; [exact Ht | exact Hprinted].
Defined.

(** C6, as the specification has it, fails: a refused SMTP login is an
    authentication error raised while a session is established, and it is
    not caught: the run raises it and prints nothing. *)
Lemma smtp_authentication_error_propagates :
  auth_or_connection_error SMTPAuthenticationError = true
  /\ fst (run_bot_try world_smtp_login_refused (enter (fresh sample_bot)))
     = Raise SMTPAuthenticationError
  /\ fst (run_bot world_smtp_login_refused (fresh sample_bot))
     = Raise SMTPAuthenticationError
  /\ forall line,
       printed line
       ∉ trace (snd (run_bot world_smtp_login_refused (fresh sample_bot))).
Proof.
  split; [reflexivity|]. split; [by vm_compute|]. split; [by vm_compute|].
  intros line.
  replace (trace (snd (run_bot world_smtp_login_refused (fresh sample_bot))))
    with [imap_opened "imap.gmail.com";
          imap_authenticated "jdoe@uci.edu" "secret";
          smtp_opened "smtp.gmail.com" 587; smtp_greeted; smtp_tls_started;
          imap_closed] by (by vm_compute).
  not_in_trace.
Qed.

(** ** The flags *)

Lemma mailto_link_loop_elem (links : list Re.Match) : forall count x,
  mailto_link_loop count links = Ret (Some x) -> x ∈ links.
Proof.
  induction links as [|l links IH]; intros count x; cbn [mailto_link_loop].
  - discriminate.
  - destruct count as [n|]; [|discriminate].
    destruct (n =? 0)%Z.
    + intros [= ->]. apply list_elem_of_here.
    + intros H. apply list_elem_of_further. eauto.
Qed.

(** What the extractor returns is a match of the mailto pattern in the
    body of one of the messages. *)
Lemma find_email_is_match (decode : string -> string -> res string)
    (b : UciSupportBot) (emails : list PyzMessage) (x : Re.Match) :
  _find_email decode b emails = Ret (Some x) ->
  exists html_text, x ∈ Re.finditer mailto_pattern html_text.
Proof.
  induction emails as [|m ms IH]; cbn [_find_email]; [discriminate|].
  unfold _parse_email, _parse_mailto_link.
  destruct (html_part m) as [part|]; [|exact IH].
  destruct (part_text decode part) as [html_text|]; [|discriminate].
  destruct (mailto_link_loop _ _) as [[y|]|] eqn:Hloop;
    [|exact IH|discriminate].
  intros [= ->]. exists html_text. by eapply mailto_link_loop_elem.
Qed.

(** The extractor reads nothing of the bot but its answer. *)
Lemma find_email_response (decode : string -> string -> res string)
    (b1 b2 : UciSupportBot) (emails : list PyzMessage) :
  _response b1 = _response b2 ->
  _find_email decode b1 emails = _find_email decode b2 emails.
Proof.
  intros Hr. induction emails as [|m ms IH]; cbn [_find_email]; [reflexivity|].
  unfold _parse_mailto_link. by rewrite Hr, IH.
Qed.

Lemma found_link_run (env : Env) (st : state) (emails : list PyzMessage)
    (m : Re.Match) (failed : gmap string (Z * string)) :
  connects env (self st) ->
  inbox env = Ret emails ->
  _find_email (bytes_decode env) (self st) emails = Ret (Some m) ->
  send_report env (self st) m = Some (Ret failed) ->
  _email_found (self (snd (run_bot env st))) = true
  /\ _email_sent (self (snd (run_bot env st)))
     = _email_sent (self st) || (size failed =? 0)
  /\ (imap_logout env = Ret tt -> smtp_quit env = Ret tt ->
      fst (run_bot env st) = Ret tt).
Proof.
  intros (H1 & H2 & H3 & H4 & H5 & H6) Hinbox Hfind Hsend.
  destruct (find_email_is_match _ _ _ _ Hfind) as [html_text Hm].
  destruct (mailto_groups _ _ Hm) as (e & s & bd & Hg).
  destruct (groupdict_mailto _ _ _ _ Hg) as (He & Hs & Hb & Hsize).
  apply Nat.eqb_eq in Hsize.
  unfold send_report, Re.group in Hsend. rewrite He, Hs, Hb in Hsend.
  injection Hsend as Hsend. unfold composed in Hsend.
  destruct (as_string env _) as [message|] eqn:Hmessage; [|discriminate].
  unfold inbox in Hinbox.
  destruct (imap_select_folder env "INBOX" false) as [[]|] eqn:Hsel;
    [|discriminate].
  destruct (imap_search env _) as [ids|] eqn:Hsearch; [|discriminate].
  destruct (imap_fetch env ids) as [bodies|] eqn:Hfetch; [|discriminate].
  injection Hinbox as <-.
  run_all; repeat split; try congruence;
    rewrite ?orb_true_r, ?orb_false_r; done.
Qed.

(** C3, as the code has it.  In a run that finds a link and whose send
    reports the refused recipients [failed]: the found flag is true after
    the run; the sent flag is true after the run exactly when it was true
    before or nobody was refused, so on a bot whose sent flag was false it
    is true if and only if nobody was refused; refused recipients are not
    raised: the run returns normally when the release calls do. *)
Theorem found_link_sets_flags (env : Env) (st : state)
    (emails : list PyzMessage) (m : Re.Match)
    (failed : gmap string (Z * string)) :
  connects env (self st) ->
  inbox env = Ret emails ->
  _find_email (bytes_decode env) (self st) emails = Ret (Some m) ->
  send_report env (self st) m = Some (Ret failed) ->
  _email_found (self (snd (run_bot env st))) = true
  /\ (_email_sent (self (snd (run_bot env st))) = true
      <-> _email_sent (self st) = true \/ failed = ∅)
  /\ (_email_sent (self st) = false ->
      (_email_sent (self (snd (run_bot env st))) = true <-> failed = ∅))
  /\ (_email_sent (self st) = false -> failed <> ∅ ->
      _email_sent (self (snd (run_bot env st))) = false)
  /\ (imap_logout env = Ret tt -> smtp_quit env = Ret tt ->
      fst (run_bot env st) = Ret tt).
Proof.
  intros Hc Hinbox Hfind Hsend.
  destruct (found_link_run _ _ _ _ _ Hc Hinbox Hfind Hsend)
    as (Hfound & Hsent & Hret).
  assert (Hempty : (size failed =? 0) = true <-> failed = ∅)
    by (rewrite Nat.eqb_eq; apply map_size_empty_iff).
  rewrite Hsent.
  split; [exact Hfound|]. split; [|split; [|split; [|exact Hret]]].
  - rewrite orb_true_iff, Hempty. tauto.
  - intros ->. cbn. exact Hempty.
  - intros -> Hne. cbn. destruct (size failed =? 0) eqn:Hsz; [|reflexivity].
    exfalso. apply Hne, Hempty. reflexivity.
Qed.

Lemma found_link_sets_flags_witness :
  _email_found (self (snd (run_bot world_one_refused (fresh sample_bot)))) = true
  /\ _email_sent (self (snd (run_bot world_one_refused (fresh sample_bot)))) = false
  /\ fst (run_bot world_one_refused (fresh sample_bot)) = Ret tt.
Proof.
  destruct (found_link_sets_flags world_one_refused (fresh sample_bot)
              [html_message sample_html_two_recipients]
              sample_match_two_recipients one_refused)
    as (Hfound & _ & _ & Hsent & Hret).
  - repeat split; reflexivity.
  - reflexivity.
  - vm_compute. reflexivity.
  - vm_compute. reflexivity.
  - split; [exact Hfound|]. split.
    + apply Hsent; [reflexivity|]. apply insert_non_empty.
    + apply Hret; reflexivity.
Defined.

(** C3, as the specification has it, fails on a bot that has already sent
    a reply: a later run finds a link, the send reports a refused
    recipient, and the sent flag is still true. *)
Lemma sent_flag_stays_after_refusal :
  _email_sent (self after_first_reply) = true
  /\ _find_email (bytes_decode world_one_refused) (self after_first_reply)
       [html_message sample_html_two_recipients]
     = Ret (Some sample_match_two_recipients)
  /\ send_report world_one_refused (self after_first_reply)
       sample_match_two_recipients = Some (Ret one_refused)
  /\ one_refused <> ∅
  /\ fst (run_bot world_one_refused after_first_reply) = Ret tt
  /\ _email_found (self (snd (run_bot world_one_refused after_first_reply))) = true
  /\ _email_sent (self (snd (run_bot world_one_refused after_first_reply))) = true.
Proof.
  split; [by vm_compute|]. split; [by vm_compute|]. split; [by vm_compute|].
  split; [apply insert_non_empty|]. by vm_compute.
Qed.

(** C4, as the code has it.  A run never resets the flags: after a run,
    each flag is true exactly when it was true before the run or the same
    run sets it on a bot whose flags are both false.  In everything else
    (what is returned or raised, what happens in the world) the run does
    not depend on the flags. *)
Theorem flags_accumulate (env : Env) (st : state) :
  _email_found (self (snd (run_bot env st)))
  = _email_found (self st)
    || _email_found (self (snd (run_bot env (clear_flags st))))
  /\ _email_sent (self (snd (run_bot env st)))
     = _email_sent (self st)
       || _email_sent (self (snd (run_bot env (clear_flags st))))
  /\ fst (run_bot env st) = fst (run_bot env (clear_flags st))
  /\ trace (snd (run_bot env st)) = trace (snd (run_bot env (clear_flags st))).
Proof.
  unfold_run.
  repeat first
    [ match goal with
      | |- context [_find_email ?d
                      (Build_UciSupportBot ?e ?p (_response ?b) false false)
                      ?l] =>
          rewrite (find_email_response d
                     (Build_UciSupportBot e p (_response b) false false)
                     b l eq_refl)
      end
    | run_step ];
    rewrite ?orb_true_r, ?orb_false_r; done.
Qed.

(** C4, as the specification has it, fails: after a run that sent the
    reply, a run on an empty inbox leaves both flags true, although the
    same run on a new bot gives false and false. *)
Lemma flags_survive_empty_run :
  inbox world_empty_inbox = Ret []
  /\ bot_summary (self (run_bots [world_ok; world_empty_inbox]
                          (fresh sample_bot))) = (true, true)
  /\ bot_summary (self (run_bots [world_empty_inbox] (fresh sample_bot)))
     = (false, false).
Proof. by vm_compute. Qed.

(** C5, as the code has it.  [bot_summary] returns the two flags with the
    sent flag first and the found flag second. *)
Theorem bot_summary_sent_then_found (b : UciSupportBot) :
  fst (bot_summary b) = _email_sent b /\ snd (bot_summary b) = _email_found b.
Proof. split; reflexivity. Qed.

(** C5, as the specification has it, fails: after a run that found the
    link and whose send was refused for one recipient, the first component
    of the summary is false while the found flag is true. *)
Lemma summary_first_is_not_found :
  _email_found (self (snd (run_bot world_one_refused (fresh sample_bot)))) = true
  /\ _email_sent (self (snd (run_bot world_one_refused (fresh sample_bot)))) = false
  /\ fst (bot_summary (self (snd (run_bot world_one_refused (fresh sample_bot)))))
     <> _email_found (self (snd (run_bot world_one_refused (fresh sample_bot))))
  /\ snd (bot_summary (self (snd (run_bot world_one_refused (fresh sample_bot)))))
     <> _email_sent (self (snd (run_bot world_one_refused (fresh sample_bot)))).
Proof. by vm_compute. Qed.

(** * Further properties *)

(** ** More on the pattern scan *)

Lemma literal_app (text s s' : string) :
  Re.literal text s = Some s' -> s = text +:+ s'.
Proof.
  revert s. induction text as [|a text IH]; intros s; simpl.
  - by intros [= ->].
  - destruct s as [|b s]; [discriminate|].
    destruct (Ascii.eqb_spec a b) as [->|]; [|discriminate].
    intros H. by rewrite (IH _ H).
Qed.

Lemma length_append (a b : string) :
  String.length (a +:+ b) = String.length a + String.length b.
Proof. induction a as [|c a IH]; simpl; [reflexivity | by rewrite IH]. Qed.

Lemma take_app_length (text s : string) (n : nat) :
  Re.take (String.length text + n) (text +:+ s) = text +:+ Re.take n s.
Proof. induction text as [|a text IH]; simpl; [reflexivity | by rewrite IH]. Qed.

Lemma drop_app_length (text s : string) (n : nat) :
  Re.drop (String.length text + n) (text +:+ s) = Re.drop n s.
Proof. induction text as [|a text IH]; simpl; [reflexivity | exact IH]. Qed.

Lemma take_add (n m : nat) : forall s : string,
  Re.take (n + m) s = Re.take n s +:+ Re.take m (Re.drop n s).
Proof.
  induction n as [|n IH]; intros s; simpl; [reflexivity|].
  destruct s as [|c s]; simpl; [by destruct m | by rewrite IH].
Qed.

Lemma drop_add (n m : nat) : forall s : string,
  Re.drop (n + m) s = Re.drop m (Re.drop n s).
Proof.
  induction n as [|n IH]; intros s; simpl; [reflexivity|].
  destruct s as [|c s]; simpl; [by destruct m | apply IH].
Qed.

Lemma dot_run_length (s : string) : Re.dot_run s <= String.length s.
Proof.
  induction s as [|c s IH]; simpl; [lia|]. destruct (Re.dot c); lia.
Qed.

Lemma take_length (n : nat) : forall s : string,
  n <= String.length s -> String.length (Re.take n s) = n.
Proof.
  induction n as [|n IH]; intros s Hn; simpl; [reflexivity|].
  destruct s as [|c s]; simpl in *; [lia|]. rewrite IH; lia.
Qed.

Lemma drop_length (n : nat) : forall s : string,
  n <= String.length s -> String.length (Re.drop n s) + n = String.length s.
Proof.
  induction n as [|n IH]; intros s Hn; simpl; [lia|].
  destruct s as [|c s]; simpl in *; [lia|]. rewrite <- (IH s); lia.
Qed.

Lemma take_single_line (n : nat) : forall s : string,
  n <= Re.dot_run s -> single_line (Re.take n s) = true.
Proof.
  induction n as [|n IH]; intros s Hn; simpl; [reflexivity|].
  destruct s as [|c s]; simpl in *; [reflexivity|].
  destruct (Re.dot c); simpl; [apply IH; lia | lia].
Qed.

Lemma dot_run_drop (n : nat) : forall s : string,
  n <= Re.dot_run s -> Re.dot_run (Re.drop n s) = Re.dot_run s - n.
Proof.
  induction n as [|n IH]; intros s Hn; simpl; [lia|].
  destruct s as [|c s]; simpl in *; [reflexivity|].
  destruct (Re.dot c); [apply IH; lia | lia].
Qed.

Section Matching.

Variable p : list Re.item.

(** What a greedy group yields comes from some capture of 1 to [n]
    characters followed by a match of the rest. *)
Lemma greedy_inv (k : string -> option Re.outcome) (name s : string) :
  forall n gs used,
    Re.greedy k name s n = Some (gs, used) ->
    exists j gs' used',
      1 <= j <= n /\ k (Re.drop j s) = Some (gs', used')
      /\ gs = (name, Re.take j s) :: gs' /\ used = j + used'
      /\ forall j', j < j' <= n -> k (Re.drop j' s) = None.
Proof.
  induction n as [|n IH]; intros gs used; cbn [Re.greedy]; [discriminate|].
  destruct (k (Re.drop (S n) s)) as [[gs' used']|] eqn:Hk.
  - intros [= <- <-]. exists (S n), gs', used'.
    repeat split; try done; try lia.
  - intros H. destruct (IH _ _ H) as (j & gs' & used' & Hj & Hkj & -> & -> & Hmax).
    exists j, gs', used'. repeat split; try done; try lia.
    intros j' Hj'. destruct (decide (j' = S n)) as [->|]; [exact Hk|].
    apply Hmax. lia.
Qed.

End Matching.

(** The text a match covers is the pattern with the groups filled in, the
    match does not run past the end of the text, and no group is empty or
    contains a newline. *)
Lemma match_here_render (p : list Re.item) : forall s gs used,
  Re.match_here p s = Some (gs, used) ->
  Re.take used s = render p gs
  /\ used <= String.length s
  /\ Forall (fun g => 1 <= String.length g.2 /\ single_line g.2 = true) gs.
Proof.
  induction p as [|[text|name] p IH]; intros s gs used; cbn [Re.match_here render].
  - intros [= <- <-]. repeat split; [lia | constructor].
  - destruct (Re.literal text s) as [s'|] eqn:Hl; [|discriminate].
    destruct (Re.match_here p s') as [[gs' used']|] eqn:Hm; [|discriminate].
    intros [= <- <-]. apply literal_app in Hl as ->.
    destruct (IH _ _ _ Hm) as (Ht & Hu & Hg).
    rewrite take_app_length, Ht. repeat split; [|done].
    rewrite length_append. lia.
  - intros H. apply greedy_inv in H
      as (j & gs' & used' & Hj & Hm & -> & -> & _).
    destruct (IH _ _ _ Hm) as (Ht & Hu & Hg).
    pose proof (dot_run_length s) as Hrun.
    rewrite take_add, Ht. repeat split.
    + pose proof (drop_length j s). lia.
    + constructor; [|done]. cbn. split.
      * rewrite take_length; lia.
      * apply take_single_line. lia.
Qed.

(** After a match of a pattern that ends with a group, the text goes on
    with a newline or is at its end. *)
Lemma match_here_to_line_end (p : list Re.item) : forall s gs used,
  ends_with_group p = true ->
  Re.match_here p s = Some (gs, used) ->
  Re.dot_run (Re.drop used s) = 0.
Proof.
  induction p as [|[text|name] p IH]; intros s gs used Hend;
    cbn [Re.match_here]; [discriminate| |].
  - destruct (Re.literal text s) as [s'|] eqn:Hl; [|discriminate].
    destruct (Re.match_here p s') as [[gs' used']|] eqn:Hm; [|discriminate].
    intros [= <- <-]. apply literal_app in Hl as ->.
    rewrite drop_app_length. eapply IH; [|exact Hm].
    destruct p; [discriminate | exact Hend].
  - intros H. apply greedy_inv in H
      as (j & gs' & used' & Hj & Hm & -> & -> & Hmax).
    rewrite drop_add. destruct p as [|i p'].
    + cbn in Hm. injection Hm as <- <-. cbn [Re.drop].
      destruct (decide (j = Re.dot_run s)) as [->|Hne].
      * rewrite dot_run_drop; lia.
      * specialize (Hmax (Re.dot_run s)). cbn in Hmax.
        discriminate Hmax. lia.
    + eapply IH; [exact Hend | exact Hm].
Qed.

(** A match of the mailto pattern at the head of a text has the three
    groups. *)
Lemma mailto_groups_shape (s : string) (gs : list (string * string))
    (used : nat) :
  Re.match_here mailto_pattern s = Some (gs, used) ->
  exists emails subject body,
    gs = [("emails", emails); ("subject", subject); ("body", body)].
Proof.
  intros H. apply match_here_names in H. cbn in H.
  destruct gs as [|[n1 e] [|[n2 su] [|[n3 b] [|? ?]]]]; try discriminate.
  cbn in H. injection H as -> -> ->. eauto.
Qed.

(** Where the matches of a scan lie. *)
Lemma finditer_from_span (p : list Re.item) (s : string) : forall pos skip x,
  x ∈ Re.finditer_from p pos skip s ->
  exists k used,
    Re.m_start x = pos + k /\ k < String.length s
    /\ Re.m_end x = Re.m_start x + used
    /\ Re.match_here p (Re.drop k s) = Some (Re.m_groups x, used).
Proof.
  induction s as [|c s IH]; intros pos skip x Hx; cbn [Re.finditer_from] in Hx.
  - inversion Hx.
  - assert (Hrest : forall n, x ∈ Re.finditer_from p (S pos) n s ->
      exists k used,
        Re.m_start x = pos + k /\ k < String.length (String c s)
        /\ Re.m_end x = Re.m_start x + used
        /\ Re.match_here p (Re.drop k (String c s))
           = Some (Re.m_groups x, used)).
    { intros n Hn. destruct (IH _ _ _ Hn) as (k & used & Hk & Hlt & He & Hm).
      exists (S k), used. cbn [Re.drop String.length].
      repeat split; [lia | lia | done | done]. }
    destruct skip as [|n]; [|eauto].
    destruct (Re.match_here p (String c s)) as [[gs used]|] eqn:Hm; [|eauto].
    apply elem_of_cons in Hx as [->|Hx]; [|eauto].
    exists 0, used. cbn. repeat split; [lia | lia | exact Hm].
Qed.

(** The scan misses nothing: its first match is the leftmost place where
    the pattern matches, and it reports no match only when the pattern
    matches nowhere. *)
Lemma finditer_from_leftmost (p : list Re.item) (s : string) : forall pos,
  match Re.finditer_from p pos 0 s with
  | [] => forall k, k < String.length s -> Re.match_here p (Re.drop k s) = None
  | x :: _ =>
      exists k, Re.m_start x = pos + k /\ k < String.length s
                /\ is_Some (Re.match_here p (Re.drop k s))
                /\ forall k', k' < k -> Re.match_here p (Re.drop k' s) = None
  end.
Proof.
  induction s as [|c s IH]; intros pos; cbn [Re.finditer_from].
  - intros k Hk. cbn in Hk. lia.
  - destruct (Re.match_here p (String c s)) as [[gs used]|] eqn:Hm.
    + exists 0. cbn. repeat split; [lia | lia | by rewrite Hm | intros; lia].
    + specialize (IH (S pos)).
      destruct (Re.finditer_from p (S pos) 0 s) as [|x l].
      * intros [|k] Hk; [exact Hm|]. cbn. apply IH. cbn in Hk. lia.
      * destruct IH as (k & Hs & Hlt & Hsome & Hnone).
        exists (S k). cbn [Re.drop String.length].
        repeat split; [lia | lia | done |].
        intros [|k'] Hk'; [exact Hm|]. apply Hnone. lia.
Qed.

(** X1. Every match reported in a text lies inside the text, is not empty,
    and covers exactly the text [mailto:] + emails + [?subject=] + subject
    + [&amp;body=] + body built from its three groups. *)
Theorem mailto_match_text (html_text : string) (x : Re.Match) :
  x ∈ Re.finditer mailto_pattern html_text ->
  exists emails subject body,
    Re.m_groups x = [("emails", emails); ("subject", subject); ("body", body)]
    /\ Re.m_start x < Re.m_end x <= String.length html_text
    /\ Re.take (Re.m_end x - Re.m_start x) (Re.drop (Re.m_start x) html_text)
       = "mailto:" +:+ emails +:+ "?subject=" +:+ subject
         +:+ "&amp;body=" +:+ body.
Proof.
  intros Hx. destruct (mailto_groups _ _ Hx) as (emails & subject & body & Hg).
  apply finditer_from_span in Hx as (k & used & Hs & Hk & He & Hm).
  cbn in Hs. subst k.
  destruct (match_here_render _ _ _ _ Hm) as (Ht & Hu & _).
  exists emails, subject, body. split; [exact Hg|].
  pose proof (drop_length (Re.m_start x) html_text) as Hd.
  replace (Re.m_end x - Re.m_start x) with used by lia.
  rewrite Ht, Hg.
  assert (Hpos : 7 <= used).
  { assert (Hl : String.length (Re.take used (Re.drop (Re.m_start x) html_text))
                 = used) by (apply take_length; lia).
    rewrite Ht, Hg in Hl. simpl in Hl. lia. }
  split; [lia|]. unfold mailto_pattern. cbn [render]. by rewrite append_empty.
Qed.

Lemma mailto_match_text_witness :
  exists emails subject body,
    Re.m_groups sample_match_two_recipients
    = [("emails", emails); ("subject", subject); ("body", body)]
    /\ Re.take 72 (Re.drop 145 sample_html_two_recipients)
       = "mailto:" +:+ emails +:+ "?subject=" +:+ subject
         +:+ "&amp;body=" +:+ body.
Proof.
  destruct (mailto_match_text sample_html_two_recipients
              sample_match_two_recipients)
    as (emails & subject & body & Hg & _ & Ht).
  - vm_compute. do 2 apply list_elem_of_further. apply list_elem_of_here.
  - exists emails, subject, body. split; [exact Hg | exact Ht].
Defined.

(** X2. No group of a match is empty and no group contains a newline: a
    link is only matched when it stands on one line. *)
Theorem mailto_groups_on_one_line (html_text : string) (x : Re.Match)
    (name value : string) :
  x ∈ Re.finditer mailto_pattern html_text ->
  Re.group x name = Some value ->
  1 <= String.length value /\ single_line value = true.
Proof.
  intros Hx Hv.
  destruct (mailto_groups _ _ Hx) as (emails & subject & body & Hg).
  apply finditer_from_span in Hx as (k & used & _ & _ & _ & Hm).
  destruct (match_here_render _ _ _ _ Hm) as (_ & _ & Hall).
  rewrite Hg in Hall.
  apply Forall_cons in Hall as [He Hall].
  apply Forall_cons in Hall as [Hs Hall].
  apply Forall_cons in Hall as [Hb _]. cbn in He, Hs, Hb.
  unfold Re.group, Re.groupdict in Hv. rewrite Hg in Hv. cbn in Hv.
  destruct (decide (name = "emails")) as [->|Hne1].
  { rewrite lookup_insert_eq in Hv. by injection Hv as <-. }
  rewrite lookup_insert_ne in Hv by done.
  destruct (decide (name = "subject")) as [->|Hne2].
  { rewrite lookup_insert_eq in Hv. by injection Hv as <-. }
  rewrite lookup_insert_ne in Hv by done.
  destruct (decide (name = "body")) as [->|Hne3].
  { rewrite lookup_insert_eq in Hv. by injection Hv as <-. }
  rewrite lookup_insert_ne in Hv by done.
  by rewrite lookup_empty in Hv.
Qed.

Lemma mailto_groups_on_one_line_witness :
  1 <= String.length "uci@service-now.com, help%40uci.edu"
  /\ single_line "uci@service-now.com, help%40uci.edu" = true.
Proof.
  apply (mailto_groups_on_one_line sample_html_two_recipients
           sample_match_two_recipients "emails").
  - vm_compute. do 2 apply list_elem_of_further. apply list_elem_of_here.
  - by vm_compute.
Defined.

(** X3. The body group always runs to the end of its line: right after a
    match the text is at its end or goes on with a newline, so whatever
    follows the link on its line belongs to the body group. *)
Theorem mailto_body_runs_to_line_end (html_text : string) (x : Re.Match) :
  x ∈ Re.finditer mailto_pattern html_text ->
  Re.drop (Re.m_end x) html_text = EmptyString
  \/ exists rest, Re.drop (Re.m_end x) html_text = String "010" rest.
Proof.
  intros Hx. apply finditer_from_span in Hx as (k & used & Hs & _ & He & Hm).
  cbn in Hs. subst k. apply match_here_to_line_end in Hm; [|reflexivity].
  rewrite He, drop_add.
  destruct (Re.drop used (Re.drop (Re.m_start x) html_text)) as [|c rest];
    [by left|right].
  cbn in Hm. unfold Re.dot in Hm.
  destruct (Ascii.eqb_spec c "010") as [->|]; [by exists rest | discriminate].
Qed.

Lemma mailto_body_runs_to_line_end_witness :
  Re.drop 217 sample_html_two_recipients = EmptyString
  \/ exists rest, Re.drop 217 sample_html_two_recipients = String "010" rest.
Proof.
  apply (mailto_body_runs_to_line_end sample_html_two_recipients
           sample_match_two_recipients).
  vm_compute. do 2 apply list_elem_of_further. apply list_elem_of_here.
Defined.

(** Every position at which the pattern matches lies in a reported match:
    it is the start of one, or it is inside one that started before. *)
Lemma finditer_from_covers (p : list Re.item) (s : string) :
  forall pos skip k,
    skip <= k -> k < String.length s ->
    is_Some (Re.match_here p (Re.drop k s)) ->
    exists x, x ∈ Re.finditer_from p pos skip s
              /\ (Re.m_start x = pos + k
                  \/ (Re.m_start x < pos + k /\ pos + k < Re.m_end x)).
Proof.
  induction s as [|c s IH]; intros pos skip k Hskip Hk Hm;
    [cbn in Hk; lia|].
  cbn [Re.finditer_from].
  assert (Hrest : forall n k', n <= k' -> k = S k' ->
            exists x, x ∈ Re.finditer_from p (S pos) n s
                      /\ (Re.m_start x = pos + k
                          \/ (Re.m_start x < pos + k /\ pos + k < Re.m_end x))).
  { intros n k' Hn ->. cbn in Hk, Hm.
    destruct (IH (S pos) n k') as (x & Hx & Hc); [lia | lia | exact Hm|].
    exists x. split; [exact Hx|]. lia. }
  destruct skip as [|n].
  - destruct (Re.match_here p (String c s)) as [[gs used]|] eqn:Hhere.
    + destruct k as [|k'].
      * eexists. split; [apply list_elem_of_here|]. cbn. lia.
      * destruct (decide (S k' < used)) as [Hin|Hout].
        -- eexists. split; [apply list_elem_of_here|]. cbn. lia.
        -- destruct (Hrest (used - 1) k') as (x & Hx & Hc); [lia | done|].
           exists x. split; [by apply list_elem_of_further | exact Hc].
    + destruct k as [|k']; [cbn in Hm; rewrite Hhere in Hm; by destruct Hm|].
      apply (Hrest 0 k'); [lia | done].
  - destruct k as [|k']; [lia|]. apply (Hrest n k'); [lia | done].
Qed.

(** X4. The scan misses nothing.  Every position at which the pattern
    matches lies in a reported match, so that only a match overlapped by an
    earlier reported one is left out; every reported match starts where
    the pattern matches; between the end of a reported match and the start
    of the next one the pattern matches nowhere.  In particular the scan
    reports no match exactly when the pattern matches at no position, and
    its first match starts at the leftmost position where the pattern
    matches. *)
Theorem mailto_scan_misses_nothing (html_text : string) :
  (forall k, k < String.length html_text ->
     is_Some (Re.match_here mailto_pattern (Re.drop k html_text)) ->
     exists x, x ∈ Re.finditer mailto_pattern html_text
               /\ Re.m_start x <= k < Re.m_end x)
  /\ (forall x, x ∈ Re.finditer mailto_pattern html_text ->
        is_Some (Re.match_here mailto_pattern
                   (Re.drop (Re.m_start x) html_text)))
  /\ (forall j x y,
        Re.finditer mailto_pattern html_text !! j = Some x ->
        Re.finditer mailto_pattern html_text !! S j = Some y ->
        forall k, Re.m_end x <= k < Re.m_start y ->
          Re.match_here mailto_pattern (Re.drop k html_text) = None)
  /\ (Re.finditer mailto_pattern html_text = []
      <-> forall k, k < String.length html_text ->
            Re.match_here mailto_pattern (Re.drop k html_text) = None)
  /\ (forall x, Re.finditer mailto_pattern html_text !! 0 = Some x ->
        forall k, k < Re.m_start x ->
          Re.match_here mailto_pattern (Re.drop k html_text) = None).
Proof.
  assert (Hspan : forall x, x ∈ Re.finditer mailto_pattern html_text ->
            Re.m_start x < Re.m_end x
            /\ Re.m_start x < String.length html_text
            /\ is_Some (Re.match_here mailto_pattern
                          (Re.drop (Re.m_start x) html_text))).
  { intros x Hx. apply finditer_from_span in Hx as (k & used & Hs & Hk & He & Hm).
    cbn in Hs. subst k.
    destruct (match_here_render _ _ _ _ Hm) as (Ht & Hu & _).
    rewrite Hm. split; [|by split].
    assert (Hl : String.length (Re.take used (Re.drop (Re.m_start x) html_text))
                 = used) by (apply take_length; lia).
    rewrite Ht in Hl. destruct (mailto_groups_shape _ _ _ Hm) as (e & su & bd & Hg).
    rewrite Hg in Hl. simpl in Hl. lia. }
  assert (Hcover : forall k, k < String.length html_text ->
            is_Some (Re.match_here mailto_pattern (Re.drop k html_text)) ->
            exists x, x ∈ Re.finditer mailto_pattern html_text
                      /\ Re.m_start x <= k < Re.m_end x).
  { intros k Hk Hm.
    destruct (finditer_from_covers mailto_pattern html_text 0 0 k)
      as (x & Hx & Hc); [lia | done | done|].
    exists x. split; [exact Hx|]. destruct (Hspan x Hx) as (Hlt & _).
    cbn in Hc. lia. }
  assert (Hnone : forall k,
            ~ is_Some (Re.match_here mailto_pattern (Re.drop k html_text)) ->
            Re.match_here mailto_pattern (Re.drop k html_text) = None).
  { intros k Hn. destruct (Re.match_here _ _); [by destruct Hn|done]. }
  split; [exact Hcover|]. split; [intros x Hx; apply (Hspan x Hx)|].
  split; [|split].
  - intros j x y Hx Hy k Hk. apply Hnone. intros Hm.
    assert (Hklen : k < String.length html_text).
    { destruct (Hspan y) as (_ & Hly & _);
        [by eapply list_elem_of_lookup_2 | lia]. }
    destruct (Hcover k Hklen Hm) as (z & Hz & Hzk).
    apply list_elem_of_lookup_1 in Hz as [n Hn].
    destruct (Hspan x) as (Hxs & _); [by eapply list_elem_of_lookup_2|].
    destruct (Hspan y) as (Hys & _); [by eapply list_elem_of_lookup_2|].
    destruct (lt_eq_lt_dec n j) as [[Hlt| ->]|Hgt].
    + pose proof (finditer_ordered _ _ _ _ _ _ Hlt Hn Hx). lia.
    + simplify_eq. lia.
    + destruct (decide (n = S j)) as [->|Hne]; [simplify_eq; lia|].
      assert (HSj : S j < n) by lia.
      pose proof (finditer_ordered _ _ _ _ _ _ HSj Hy Hn). lia.
  - split.
    + intros Hnil k Hk. apply Hnone. intros Hm.
      destruct (Hcover k Hk Hm) as (x & Hx & _). rewrite Hnil in Hx.
      by apply elem_of_nil in Hx.
    + intros Hall.
      destruct (Re.finditer mailto_pattern html_text) as [|x l] eqn:Hl;
        [done|].
      destruct (Hspan x) as (_ & Hlen & Hm); [apply list_elem_of_here|].
      rewrite (Hall _ Hlen) in Hm. by destruct Hm.
  - intros x Hx k Hk. apply Hnone. intros Hm.
    assert (Hklen : k < String.length html_text).
    { destruct (Hspan x) as (_ & Hlx & _);
        [by eapply list_elem_of_lookup_2 | lia]. }
    destruct (Hcover k Hklen Hm) as (z & Hz & Hzk).
    apply list_elem_of_lookup_1 in Hz as [n Hn].
    destruct n as [|n]; [simplify_eq; lia|].
    assert (H0 : 0 < S n) by lia.
    pose proof (finditer_ordered _ _ _ _ _ _ H0 Hx Hn).
    destruct (Hspan x) as (Hxs & _); [by eapply list_elem_of_lookup_2|]. lia.
Qed.

(** ** More on the constructor and its setters *)

Lemma lower_char_idempotent (c : ascii) :
  Py.lower_char (Py.lower_char c) = Py.lower_char c.
Proof. destruct c as [[] [] [] [] [] [] [] []]; reflexivity. Qed.

Lemma lower_idempotent (s : string) : Py.lower (Py.lower s) = Py.lower s.
Proof.
  induction s as [|c s IH]; [reflexivity|].
  cbn [Py.lower]. by rewrite lower_char_idempotent, IH.
Qed.

Lemma response_setter_stores (user_response r : string) :
  response_setter user_response = Ret r -> r = Py.lower user_response.
Proof. unfold response_setter. by destruct (_ || _ || _); intros [=]. Qed.

Lemma response_setter_raises (user_response : string) (e : exn) :
  response_setter user_response = Raise e ->
  e = ValueError
  /\ Py.lower user_response <> "not today"
  /\ Py.lower user_response <> "no"
  /\ Py.lower user_response <> "yes".
Proof.
  unfold response_setter.
  destruct (String.eqb_spec (Py.lower user_response) "not today");
    [discriminate|].
  destruct (String.eqb_spec (Py.lower user_response) "no"); [discriminate|].
  destruct (String.eqb_spec (Py.lower user_response) "yes"); [discriminate|].
  by intros [= <-].
Qed.

(** X5. The answer setter is case-insensitive and normalising: it treats
    an answer like its lowercase form; what it stores is that lowercase
    form, one of the three answers, and is accepted unchanged when set
    again; it raises [ValueError] and nothing else on any other text. *)
Theorem response_setter_normalises (user_response : string) :
  response_setter user_response = response_setter (Py.lower user_response)
  /\ (forall r, response_setter user_response = Ret r ->
        r = Py.lower user_response
        /\ response_setter r = Ret r
        /\ (r = "not today" \/ r = "no" \/ r = "yes"))
  /\ (forall e, response_setter user_response = Raise e ->
        e = ValueError
        /\ Py.lower user_response <> "not today"
        /\ Py.lower user_response <> "no"
        /\ Py.lower user_response <> "yes").
Proof.
  assert (Hlow : response_setter user_response
                 = response_setter (Py.lower user_response))
    by (unfold response_setter; by rewrite lower_idempotent).
  split; [exact Hlow|]. split; [|apply response_setter_raises].
  intros r Hr. pose proof (response_setter_values _ _ Hr) as Hv.
  pose proof (response_setter_stores _ _ Hr) as Heq.
  split; [exact Heq|]. split; [|exact Hv].
  rewrite Heq, <- Hlow, Hr. by rewrite Heq.
Qed.

Lemma email_setter_ret_iff (email_address : string) :
  email_setter email_address = Ret email_address
  <-> valid_uci_address email_address.
Proof.
  unfold email_setter, valid_uci_address, Py.len.
  rewrite count_uci_domain.
  destruct (Nat.ltb_spec (String.length uci_domain)
              (String.length email_address)) as [Hl|Hl];
    destruct (Py.endswith email_address uci_domain) eqn:He;
    destruct (Nat.eqb_spec (occurrences uci_domain email_address) 1)
      as [Ho|Ho];
    cbn [andb]; split; try discriminate; try (intros (_ & ? & ?); lia).
  - intros _. split; [|split]; auto. apply endswith_spec, He.
  - intros (Hx & _). apply endswith_spec in Hx. congruence.
  - intros (Hx & _). apply endswith_spec in Hx. congruence.
Qed.

(** X6. The constructor checks the address first and the answer second.
    When it returns, the bot holds the address and the password as given
    and the answer in lowercase, the address is valid and both flags are
    false.  An invalid address gives [UciInvalidEmail] whatever the answer
    is; with a valid address an unknown answer gives [ValueError]. *)
Theorem init_checks_address_then_answer (email password response : string) :
  (forall b, __init__ email password response = Ret b ->
     _email b = email /\ _password b = password
     /\ _response b = Py.lower response
     /\ bot_summary b = (false, false)
     /\ valid_uci_address email)
  /\ (~ valid_uci_address email ->
      __init__ email password response = Raise UciInvalidEmail)
  /\ (valid_uci_address email ->
      (forall r, response_setter response <> Ret r) ->
      __init__ email password response = Raise ValueError).
Proof.
  unfold __init__.
  pose proof (email_setter_ret_iff email) as Hiff.
  destruct (email_setter_cases email) as [He|He]; rewrite He.
  - apply Hiff in He. split; [|split].
    + intros b.
      destruct (response_setter response) as [r|] eqn:Hr; [|discriminate].
      intros [= <-]. cbn. by rewrite (response_setter_stores _ _ Hr).
    + done.
    + intros _ Hno.
      destruct (response_setter response) as [r|e] eqn:Hr; [by destruct (Hno r)|].
      by destruct (response_setter_raises _ _ Hr) as (-> & _).
  - split; [discriminate|]. split; [done|].
    intros Hv. apply Hiff in Hv. congruence.
Qed.

Lemma init_checks_address_then_answer_witness :
  _email sample_bot = "jdoe@uci.edu" /\ _response sample_bot = "yes"
  /\ bot_summary sample_bot = (false, false)
  /\ valid_uci_address "jdoe@uci.edu".
Proof.
  destruct (init_checks_address_then_answer "jdoe@uci.edu" "secret" "Yes")
    as (Hret & _).
  destruct (Hret sample_bot) as (He & _ & Hr & Hs & Hv); [reflexivity|].
  split; [exact He|]. split; [exact Hr|]. split; [exact Hs | exact Hv].
Defined.

Lemma occurrences_after_name (name : string) :
  has_char "@" name = false ->
  occurrences uci_domain (name +:+ uci_domain) = 1.
Proof.
  induction name as [|c name IH]; [reflexivity|].
  cbn [has_char]. intros H. apply orb_false_elim in H as [Hc Hn].
  change (String c name +:+ uci_domain) with (String c (name +:+ uci_domain)).
  cbn [occurrences]. rewrite (IH Hn).
  unfold uci_domain at 1. cbn [String.prefix].
  destruct (ascii_dec "@" c) as [<-|]; [discriminate | reflexivity].
Qed.

(** X7. Every address made of a non-empty name without [@] followed by
    [@uci.edu] is accepted by the address setter. *)
Theorem email_setter_accepts_plain_names (name : string) :
  name <> EmptyString ->
  has_char "@" name = false ->
  email_setter (name +:+ uci_domain) = Ret (name +:+ uci_domain).
Proof.
  intros Hne Hat. apply email_setter_ret_iff. split; [by exists name|].
  split; [by apply occurrences_after_name|].
  rewrite length_append. destruct name; [done | cbn; lia].
Qed.

Lemma email_setter_accepts_plain_names_witness :
  email_setter "jdoe@uci.edu" = Ret "jdoe@uci.edu".
Proof.
  apply (email_setter_accepts_plain_names "jdoe"); [discriminate | reflexivity].
Defined.

(** ** The extractor on a bot whose answer is not one of the three *)

Section UnknownAnswer.

Variable decode : string -> string -> res string.
Variable b : UciSupportBot.
Hypothesis unknown : answer_index !! _response b = None.

Lemma find_email_unknown_cons (m : PyzMessage) (ms : list PyzMessage) :
  _find_email decode b (m :: ms)
  = match html_text_of decode m with
    | Some (Raise e) => Raise e
    | _ =>
        match mailto_matches decode m with
        | [] => _find_email decode b ms
        | _ :: _ => Raise TypeError
        end
    end.
Proof.
  cbn [_find_email].
  unfold _parse_email, mailto_matches, html_text_of, _parse_mailto_link.
  rewrite unknown. destruct (html_part m) as [part|]; [|reflexivity].
  destruct (part_text decode part) as [html_text|]; [|reflexivity].
  by destruct (Re.finditer mailto_pattern html_text).
Qed.

(** The three ways a first message can stand. *)
Lemma first_message_unknown (m : PyzMessage) (ms : list PyzMessage) :
  (exists e, html_text_of decode m = Some (Raise e)
             /\ mailto_matches decode m = []
             /\ _find_email decode b (m :: ms) = Raise e)
  \/ (decodes decode m /\ mailto_matches decode m <> []
      /\ _find_email decode b (m :: ms) = Raise TypeError)
  \/ (decodes decode m /\ mailto_matches decode m = []
      /\ _find_email decode b (m :: ms) = _find_email decode b ms).
Proof.
  rewrite find_email_unknown_cons. unfold decodes, mailto_matches.
  destruct (html_text_of decode m) as [[html_text|e]|] eqn:Ht.
  - destruct (Re.finditer mailto_pattern html_text) eqn:Hl;
      [right; right | right; left]; by repeat split.
  - left. eauto.
  - right; right. by repeat split.
Qed.

Lemma find_email_unknown_some (emails : list PyzMessage) (x : Re.Match) :
  _find_email decode b emails <> Ret (Some x).
Proof.
  induction emails as [|m ms IH]; [discriminate|].
  by destruct (first_message_unknown m ms)
    as [(e & _ & _ & ->)|[(_ & _ & ->)|(_ & _ & ->)]].
Qed.

Lemma find_email_unknown_none (emails : list PyzMessage) :
  _find_email decode b emails = Ret None
  <-> Forall (fun m => decodes decode m /\ mailto_matches decode m = [])
        emails.
Proof.
  induction emails as [|m ms IH]; [by split|]. rewrite Forall_cons.
  destruct (first_message_unknown m ms)
    as [(e & Ht & _ & ->)|[(_ & Hne & ->)|(Hd & Hnil & ->)]].
  - split; [discriminate|]. intros [[Hd _] _]. by destruct (Hd e).
  - split; [discriminate|]. by intros [[_ ?] _].
  - rewrite IH. tauto.
Qed.

Lemma find_email_unknown_raise (emails : list PyzMessage) (e : exn) :
  _find_email decode b emails = Raise e
  <-> exists pre m post,
        emails = pre ++ m :: post
        /\ Forall (fun m' => decodes decode m'
                             /\ mailto_matches decode m' = []) pre
        /\ (html_text_of decode m = Some (Raise e)
            \/ (e = TypeError /\ mailto_matches decode m <> [])).
Proof.
  induction emails as [|m ms IH].
  - split; [discriminate|]. intros (pre & m & post & H & _). by destruct pre.
  - destruct (first_message_unknown m ms)
      as [(e0 & Ht & Hnil0 & ->)|[(Hd & Hne & ->)|(Hd & Hnil & ->)]].
    + split.
      * intros [= ->]. exists [], m, ms. repeat split; [constructor | by left].
      * intros (pre & m' & post & H & Hpre & Hm).
        destruct pre as [|m0 pre]; simplify_eq/=.
        { destruct Hm as [Hm|[_ Hm]]; congruence. }
        apply Forall_cons in Hpre as [[Hd0 _] _]. by destruct (Hd0 e0).
    + split.
      * intros [= <-]. exists [], m, ms. repeat split; [constructor | by right].
      * intros (pre & m' & post & H & Hpre & Hm).
        destruct pre as [|m0 pre]; simplify_eq/=.
        { destruct Hm as [Hm|[-> _]]; [by destruct (Hd e)|done]. }
        by apply Forall_cons in Hpre as [[_ ?] _].
    + rewrite IH. split.
      * intros (pre & m' & post & -> & Hpre & Hm).
        exists (m :: pre), m', post. repeat split; [|done].
        apply Forall_cons. by split.
      * intros (pre & m' & post & H & Hpre & Hm).
        destruct pre as [|m0 pre]; simplify_eq/=.
        { destruct Hm as [Hm|[_ Hm]]; [by destruct (Hd e)|done]. }
        apply Forall_cons in Hpre as [_ Hpre]. eauto 6.
Qed.

End UnknownAnswer.

(** X8. When the answer stored in the bot is not a key of the answer
    dictionary (it was not set through the setter), the extractor never
    returns a link.  It returns [None] exactly when every message is
    without an HTML part or decodes to a text without a match.  Otherwise
    it raises at the first message that is not so: the error of the
    decoding when the HTML part does not decode, [TypeError] when the text
    has a match. *)
Theorem find_email_unknown_answer (decode : string -> string -> res string)
    (b : UciSupportBot) (emails : list PyzMessage) :
  answer_index !! _response b = None ->
  (forall x, _find_email decode b emails <> Ret (Some x))
  /\ (_find_email decode b emails = Ret None
      <-> Forall (fun m => decodes decode m
                           /\ mailto_matches decode m = []) emails)
  /\ (forall e,
        _find_email decode b emails = Raise e
        <-> exists pre m post,
              emails = pre ++ m :: post
              /\ Forall (fun m' => decodes decode m'
                                   /\ mailto_matches decode m' = []) pre
              /\ (html_text_of decode m = Some (Raise e)
                  \/ (e = TypeError /\ mailto_matches decode m <> []))).
Proof.
  intros Hb. split; [|split].
  - intros x. by apply find_email_unknown_some.
  - by apply find_email_unknown_none.
  - intros e. by apply find_email_unknown_raise.
Qed.

Lemma find_email_unknown_answer_witness :
  _find_email sample_decode
    {| _email := "jdoe@uci.edu"; _password := "secret";
       _response := "maybe"; _email_sent := false; _email_found := false |}
    [ {| html_part := None; text_part := None |}; html_message sample_html ]
  = Raise TypeError.
Proof.
  destruct (find_email_unknown_answer sample_decode
              {| _email := "jdoe@uci.edu"; _password := "secret";
                 _response := "maybe"; _email_sent := false;
                 _email_found := false |}
              [ {| html_part := None; text_part := None |};
                html_message sample_html ])
    as (_ & _ & Hr); [by vm_compute|].
  apply Hr.
  exists [ {| html_part := None; text_part := None |} ],
         (html_message sample_html), [].
  split; [reflexivity|]. split.
  - repeat constructor. intros e. by vm_compute.
  - right. split; [reflexivity | by vm_compute].
Defined.

(** ** More on sending *)

Lemma split_pieces (s : string) :
  Forall (fun w => has_char "," w = false) (Py.split "," s)
  /\ length (Py.split "," s) = S (count_char "," s).
Proof.
  induction s as [|c s [IHf IHl]]; [by split; [repeat constructor|]|].
  cbn [Py.split count_char].
  destruct (Ascii.eqb_spec c ",") as [->|Hc].
  - split; [by constructor | cbn; by rewrite IHl].
  - destruct (Py.split "," s) as [|w ws]; [done|].
    apply Forall_cons in IHf as [Hw Hws]. split; [|exact IHl].
    constructor; [|done]. cbn [has_char]. rewrite Hw.
    by destruct (Ascii.eqb_spec c ",").
Qed.

(** X9. When [_send_email] returns, exactly one mail has been handed over,
    from the bot's own address; its destination list is never empty, has
    one address more than the recipients text has commas, no address
    contains a comma, and the addresses joined by commas are the
    recipients text again.  The bot itself is unchanged. *)
Theorem send_email_recipients (env : Env) (smtp : SMTP)
    (emails subject body : string) (st st' : state)
    (failed : gmap string (Z * string)) :
  _send_email env smtp emails subject body st = (Ret failed, st') ->
  exists to_addrs msg,
    trace st' = trace st ++ [smtp_mail_sent (_email (self st)) to_addrs msg]
    /\ self st' = self st
    /\ length to_addrs = S (count_char "," emails)
    /\ Forall (fun w => has_char "," w = false) to_addrs
    /\ Py.join "," to_addrs = emails.
Proof.
  rewrite send_email_call.
  destruct (as_string env _) as [message|]; [|discriminate]. unfold call.
  destruct (smtp_sendmail env _ _ _) as [f|]; [|discriminate].
  intros [= <- <-]. eexists _, _. cbn.
  split; [reflexivity|]. split; [reflexivity|].
  destruct (split_pieces emails) as [Hf Hl].
  split; [exact Hl|]. split; [exact Hf | apply join_split].
Qed.

Lemma send_email_recipients_witness :
  exists to_addrs msg,
    trace (snd (_send_email world_ok (SMTP_at smtp_server_domain 587)
                  "uci@service-now.com, help%40uci.edu" "Re:Check" "Yes"
                  (fresh sample_bot)))
    = [smtp_mail_sent "jdoe@uci.edu" to_addrs msg]
    /\ length to_addrs = 2.
Proof.
  destruct (send_email_recipients world_ok (SMTP_at smtp_server_domain 587)
              "uci@service-now.com, help%40uci.edu" "Re:Check" "Yes"
              (fresh sample_bot)
              (snd (_send_email world_ok (SMTP_at smtp_server_domain 587)
                      "uci@service-now.com, help%40uci.edu" "Re:Check" "Yes"
                      (fresh sample_bot)))
              ∅)
    as (to_addrs & msg & Ht & _ & Hl & _); [reflexivity|].
  exists to_addrs, msg. split; [exact Ht | exact Hl].
Defined.

(** ** More on runs *)

(** A run leaves the address, the password and the answer of the bot as
    they are, and keeps the sent flag below the found flag. *)
Lemma run_bot_invariants (env : Env) (st : state) :
  _email (self (snd (run_bot env st))) = _email (self st)
  /\ _password (self (snd (run_bot env st))) = _password (self st)
  /\ _response (self (snd (run_bot env st))) = _response (self st)
  /\ (sent_implies_found (self st) ->
      sent_implies_found (self (snd (run_bot env st)))).
Proof. unfold sent_implies_found. run_all; repeat split; auto. Qed.

(** X10. Whatever happens in a sequence of runs on one bot, the address,
    the password and the answer of the bot stay as they were, and the
    sent flag is never true without the found flag if that was so before
    the runs (as it is for a new bot). *)
Theorem runs_keep_configuration (envs : list Env) (st : state) :
  _email (self (run_bots envs st)) = _email (self st)
  /\ _password (self (run_bots envs st)) = _password (self st)
  /\ _response (self (run_bots envs st)) = _response (self st)
  /\ (sent_implies_found (self st) ->
      sent_implies_found (self (run_bots envs st))).
Proof.
  revert st. induction envs as [|env envs IH]; intros st; [done|].
  cbn [run_bots foldl]. fold (run_bots envs (snd (run_bot env st))).
  destruct (IH (snd (run_bot env st))) as (He & Hp & Hr & Hi).
  destruct (run_bot_invariants env st) as (He' & Hp' & Hr' & Hi').
  rewrite He, Hp, Hr. repeat split; auto.
Qed.

(** X11. A run hands over at most one mail.  When it does, the mail is
    from the bot's own address, both logins were accepted before, and the
    found flag is true afterwards.  The sent flag goes from false to true
    only in a run that handed over a mail. *)
Theorem run_sends_at_most_one_mail (env : Env) (st : state) :
  exists t,
    trace (snd (run_bot env st)) = trace st ++ t
    /\ mails t <= 1
    /\ (mails t = 1 ->
        _email_found (self (snd (run_bot env st))) = true
        /\ imap_authenticated (_email (self st)) (_password (self st)) ∈ t
        /\ smtp_authenticated (_email (self st)) (_password (self st)) ∈ t
        /\ exists to_addrs msg,
             smtp_mail_sent (_email (self st)) to_addrs msg ∈ t)
    /\ (_email_sent (self st) = false ->
        _email_sent (self (snd (run_bot env st))) = true ->
        mails t = 1).
Proof.
  run_all; new_events; cbn [mails];
    (split; [lia|]); (split; [|intros; first [reflexivity | congruence]]);
    try discriminate; intros _;
    (split; [reflexivity|]); (split; [in_trace|]); (split; [in_trace|]);
    eexists _, _; in_trace.
Qed.

(** The retrieval, step by step, from what it gives as a whole. *)
Ltac open_inbox H :=
  unfold inbox in H;
  destruct (imap_select_folder _ "INBOX" false) as [[]|] eqn:?;
    [|discriminate H];
  destruct (imap_search _ _) as [?|] eqn:?; [|discriminate H];
  destruct (imap_fetch _ _) as [?|] eqn:?; [|discriminate H];
  injection H as <-.

(** X12. A run that finds no link (the inbox is empty, or no message has
    enough links) leaves the bot exactly as it was, hands over no mail,
    and, when the release calls succeed, returns normally. *)
Theorem run_without_link (env : Env) (st : state)
    (emails : list PyzMessage) :
  connects env (self st) ->
  inbox env = Ret emails ->
  _find_email (bytes_decode env) (self st) emails = Ret None ->
  self (snd (run_bot env st)) = self st
  /\ (exists t, trace (snd (run_bot env st)) = trace st ++ t /\ mails t = 0)
  /\ (imap_logout env = Ret tt -> smtp_quit env = Ret tt ->
      fst (run_bot env st) = Ret tt).
Proof.
  intros (H1 & H2 & H3 & H4 & H5 & H6) Hinbox Hfind.
  open_inbox Hinbox.
  run_all; (split; [by destruct (self st)|]);
    (split; [new_events; reflexivity|]); congruence.
Qed.

Lemma run_without_link_witness :
  self (snd (run_bot world_empty_inbox (fresh sample_bot))) = sample_bot
  /\ fst (run_bot world_empty_inbox (fresh sample_bot)) = Ret tt.
Proof.
  destruct (run_without_link world_empty_inbox (fresh sample_bot) [])
    as (Hself & _ & Hret).
  - repeat split; reflexivity.
  - reflexivity.
  - reflexivity.
  - split; [exact Hself | apply Hret; reflexivity].
Defined.

(** X13. The order of the session set-up.  In every run, an accepted SMTP
    login comes right after the upgrade to TLS, which comes after the
    greeting and the connection, and the SMTP connection is only opened
    after the IMAP login was accepted: the events of such a run start with
    these six, in this order. *)
Theorem smtp_login_after_tls (env : Env) (st : state) :
  exists t,
    trace (snd (run_bot env st)) = trace st ++ t
    /\ forall user password,
         smtp_authenticated user password ∈ t ->
         exists rest,
           t = [imap_opened imap_server_domain;
                imap_authenticated (_email (self st)) (_password (self st));
                smtp_opened smtp_server_domain 587;
                smtp_greeted;
                smtp_tls_started;
                smtp_authenticated (_email (self st)) (_password (self st))]
               ++ rest.
Proof.
  run_all; new_events; intros user password;
    first [ by eexists | not_in_trace ].
Qed.

(** X14. A failing IMAP logout hides the SMTP session from the release:
    when the IMAP session was established and its logout raises, the run
    raises that exception, whatever happened before, and neither session
    has been closed. *)
Theorem failed_logout_skips_quit (env : Env) (st : state) (e : exn) :
  IMAPClient_new env imap_server_domain = Ret tt ->
  imap_login env (_email (self st)) (_password (self st)) = Ret tt ->
  imap_logout env = Raise e ->
  fst (run_bot env st) = Raise e
  /\ exists t,
       trace (snd (run_bot env st)) = trace st ++ t
       /\ (imap_closed ∉ t) /\ (smtp_closed ∉ t).
Proof.
  intros Hnew Hlogin Hlogout.
  run_all; (split; [reflexivity|]); new_events; split; not_in_trace.
Qed.

Lemma failed_logout_skips_quit_witness :
  fst (run_bot world_logout_fails (fresh sample_bot))
  = Raise (OtherException "IMAP4.abort")
  /\ smtp_closed ∉ trace (snd (run_bot world_logout_fails (fresh sample_bot))).
Proof.
  destruct (failed_logout_skips_quit world_logout_fails (fresh sample_bot)
              (OtherException "IMAP4.abort"))
    as (Hraise & t & Ht & _ & Hquit); [reflexivity..|].
  split; [exact Hraise|]. rewrite Ht. exact Hquit.
Defined.

(** X15. When a link is found and the send raises, be it that the message
    cannot be written out or that [sendmail] itself raises (as when every
    recipient is refused), the found flag is true after the run, the sent
    flag is as before, no mail has been handed over, both sessions are
    closed when the release calls succeed, and the exception reaches the
    caller unless it is one of the two the run catches. *)
Theorem raising_send_keeps_sent_flag (env : Env) (st : state)
    (emails : list PyzMessage) (m : Re.Match) (e : exn) :
  connects env (self st) ->
  inbox env = Ret emails ->
  _find_email (bytes_decode env) (self st) emails = Ret (Some m) ->
  send_report env (self st) m = Some (Raise e) ->
  imap_logout env = Ret tt ->
  smtp_quit env = Ret tt ->
  _email_found (self (snd (run_bot env st))) = true
  /\ _email_sent (self (snd (run_bot env st))) = _email_sent (self st)
  /\ (exists t,
        trace (snd (run_bot env st)) = trace st ++ t
        /\ mails t = 0
        /\ times imap_closed t = 1 /\ times smtp_closed t = 1)
  /\ (e <> LoginError -> e <> gaierror -> fst (run_bot env st) = Raise e).
Proof.
  intros (H1 & H2 & H3 & H4 & H5 & H6) Hinbox Hfind Hsend Hlogout Hquit.
  destruct (find_email_is_match _ _ _ _ Hfind) as [html_text Hm].
  destruct (mailto_groups _ _ Hm) as (em & su & bd & Hg).
  destruct (groupdict_mailto _ _ _ _ Hg) as (He & Hs & Hb & Hsize).
  apply Nat.eqb_eq in Hsize.
  unfold send_report, Re.group in Hsend. rewrite He, Hs, Hb in Hsend.
  injection Hsend as Hsend. unfold composed in Hsend.
  open_inbox Hinbox. revert Hsend.
  run_all; intros Hsend; try discriminate Hsend; injection Hsend as <-;
    (split; [reflexivity|]); (split; [reflexivity|]);
    (split; [new_events; decide_events; done | congruence]).
Qed.

Lemma raising_send_keeps_sent_flag_witness :
  _email_found
    (self (snd (run_bot (sample_env (Ret tt) (Ret tt)
                           [sample_html_two_recipients]
                           (Raise SMTPRecipientsRefused))
                        (fresh sample_bot)))) = true
  /\ _email_sent
       (self (snd (run_bot (sample_env (Ret tt) (Ret tt)
                              [sample_html_two_recipients]
                              (Raise SMTPRecipientsRefused))
                           (fresh sample_bot)))) = false
  /\ fst (run_bot (sample_env (Ret tt) (Ret tt)
                     [sample_html_two_recipients]
                     (Raise SMTPRecipientsRefused))
                  (fresh sample_bot)) = Raise SMTPRecipientsRefused.
Proof.
  destruct (raising_send_keeps_sent_flag
              (sample_env (Ret tt) (Ret tt) [sample_html_two_recipients]
                 (Raise SMTPRecipientsRefused))
              (fresh sample_bot)
              [html_message sample_html_two_recipients]
              sample_match_two_recipients SMTPRecipientsRefused)
    as (Hfound & Hsent & _ & Hraise).
  - repeat split; reflexivity.
  - reflexivity.
  - vm_compute. reflexivity.
  - vm_compute. reflexivity.
  - reflexivity.
  - reflexivity.
  - split; [exact Hfound|]. split; [exact Hsent|].
    apply Hraise; discriminate.
Defined.

(** X16. The releases come last.  In every run, nothing happens after a
    session is closed except the closing of the other one; the IMAP
    session is closed first, and the SMTP session is never closed unless
    the IMAP session was. *)
Theorem releases_come_last (env : Env) (st : state) :
  exists t,
    trace (snd (run_bot env st)) = trace st ++ t
    /\ t = List.filter (fun ev => negb (is_release ev)) t
           ++ List.filter is_release t
    /\ (List.filter is_release t = []
        \/ List.filter is_release t = [imap_closed]
        \/ List.filter is_release t = [imap_closed; smtp_closed]).
Proof.
  run_all; new_events; cbn [List.filter is_release negb app]; auto.
Qed.

(** ** The main program *)

Lemma init_flags (email password response : string) (b : UciSupportBot) :
  __init__ email password response = Ret b ->
  _email_sent b = false /\ _email_found b = false
  /\ _email b = email /\ _response b = Py.lower response.
Proof.
  unfold __init__.
  destruct (email_setter_cases email) as [He|He]; rewrite He; [|discriminate].
  destruct (response_setter response) as [r|] eqn:Hr; [|discriminate].
  intros [= <-]. cbn. by rewrite (response_setter_stores _ _ Hr).
Qed.

(** The loop ends only with both flags true, and on the same account. *)
Lemma poll_finished (ticks : list (option Env)) : forall st st',
  poll ticks st = Finished st' ->
  _email_sent (self st') = true /\ _email_found (self st') = true
  /\ _email (self st') = _email (self st)
  /\ _response (self st') = _response (self st).
Proof.
  induction ticks as [|[env|] ticks IH]; intros st st'; cbn [poll bot_summary].
  - destruct (_email_sent (self st)) eqn:Hs, (_email_found (self st)) eqn:Hf;
      cbn [negb orb]; try discriminate. by intros [= <-].
  - destruct (_email_sent (self st)) eqn:Hs, (_email_found (self st)) eqn:Hf;
      cbn [negb orb]; try (by intros [= <-]);
      destruct (run_bot env st) as [[[]|e] st1] eqn:Hrun; try discriminate;
      intros H; apply IH in H as (? & ? & He & Hr);
      destruct (run_bot_invariants env st) as (He' & _ & Hr' & _);
      rewrite Hrun in He', Hr'; cbn in He', Hr';
      by rewrite He, Hr, He', Hr'.
  - destruct (_email_sent (self st)) eqn:Hs, (_email_found (self st)) eqn:Hf;
      cbn [negb orb]; try (by intros [= <-]); apply IH.
Qed.

(** More iterations only matter while the loop is still going. *)
Lemma poll_app (ticks more : list (option Env)) : forall st,
  poll (ticks ++ more) st
  = match poll ticks st with
    | Polling st' => poll more st'
    | r => r
    end.
Proof.
  induction ticks as [|[env|] ticks IH]; intros st; cbn [app poll bot_summary].
  - destruct (_email_sent (self st)) eqn:Hs, (_email_found (self st)) eqn:Hf;
      cbn [negb orb]; try reflexivity.
    destruct more as [|[?|] ?]; cbn [poll bot_summary]; by rewrite Hs, Hf.
  - destruct (_email_sent (self st)), (_email_found (self st)); cbn [negb orb];
      try reflexivity; by destruct (run_bot env st) as [[[]|e] st1].
  - by destruct (_email_sent (self st)), (_email_found (self st)); cbn [negb orb].
Qed.

Lemma poll_polling (ticks : list (option Env)) : forall st st',
  poll ticks st = Polling st' ->
  _email_sent (self st') = false \/ _email_found (self st') = false.
Proof.
  induction ticks as [|[env|] ticks IH]; intros st st'; cbn [poll bot_summary].
  - destruct (_email_sent (self st)) eqn:Hs, (_email_found (self st)) eqn:Hf;
      cbn [negb orb]; try discriminate; intros [= <-]; auto.
  - destruct (_email_sent (self st)), (_email_found (self st)); cbn [negb orb];
      try discriminate;
      destruct (run_bot env st) as [[[]|e] st1]; try discriminate; apply IH.
  - destruct (_email_sent (self st)), (_email_found (self st)); cbn [negb orb];
      try discriminate; apply IH.
Qed.

(** X17. The main program ends normally only after a reply was sent: when
    its loop has ended, both flags of the bot are true, and the bot is the
    one the program built, on the configured address with the answer
    [not today]. *)
Theorem main_finishes_after_reply (EMAIL PASSWORD : string) (env0 : Env)
    (ticks : list (option Env)) (st : state) :
  main EMAIL PASSWORD env0 ticks = Finished st ->
  bot_summary (self st) = (true, true)
  /\ _email (self st) = EMAIL
  /\ _response (self st) = "not today"
  /\ valid_uci_address EMAIL.
Proof.
  unfold main.
  destruct (__init__ EMAIL PASSWORD "not today") as [b|] eqn:Hinit;
    [|discriminate].
  destruct (init_flags _ _ _ _ Hinit) as (_ & _ & He & Hr).
  assert (Hv : valid_uci_address EMAIL).
  { apply email_setter_ret_iff. unfold __init__ in Hinit.
    destruct (email_setter_cases EMAIL) as [H|H]; [exact H|].
    rewrite H in Hinit. discriminate. }
  destruct (run_bot env0 (fresh b)) as [[[]|e] st1] eqn:Hrun; [|discriminate].
  intros H. apply poll_finished in H as (Hs & Hf & He1 & Hr1).
  destruct (run_bot_invariants env0 (fresh b)) as (He' & _ & Hr' & _).
  rewrite Hrun in He', Hr'. cbn in He', Hr'.
  unfold bot_summary. rewrite Hs, Hf, He1, Hr1, He', Hr', He, Hr.
  split; [reflexivity|]. split; [reflexivity|]. split; [reflexivity | exact Hv].
Qed.

Lemma main_finishes_after_reply_witness :
  bot_summary (self (snd (run_bot world_ok (fresh main_bot)))) = (true, true)
  /\ _response (self (snd (run_bot world_ok (fresh main_bot)))) = "not today".
Proof.
  destruct (main_finishes_after_reply "jdoe@uci.edu" "secret" world_ok
              [None; Some world_empty_inbox]
              (snd (run_bot world_ok (fresh main_bot))))
    as (Hs & _ & Hr & _); [by vm_compute|].
  split; [exact Hs | exact Hr].
Defined.

(** X18. Once the main program has ended, normally or by an exception,
    later iterations of the loop do not happen; while the loop is still
    going, one of the two flags is false and the next iterations go on
    from the store reached. *)
Theorem main_stops_for_good (EMAIL PASSWORD : string) (env0 : Env)
    (ticks more : list (option Env)) :
  (forall st, main EMAIL PASSWORD env0 ticks = Finished st ->
     main EMAIL PASSWORD env0 (ticks ++ more) = Finished st)
  /\ (forall e st, main EMAIL PASSWORD env0 ticks = Crashed e st ->
        main EMAIL PASSWORD env0 (ticks ++ more) = Crashed e st)
  /\ (forall st, main EMAIL PASSWORD env0 ticks = Polling st ->
        main EMAIL PASSWORD env0 (ticks ++ more) = poll more st
        /\ (_email_sent (self st) = false \/ _email_found (self st) = false)).
Proof.
  unfold main.
  destruct (__init__ EMAIL PASSWORD "not today") as [b|e0];
    [|by repeat split].
  destruct (run_bot env0 (fresh b)) as [[[]|e1] st1]; [|by repeat split].
  rewrite poll_app. split; [|split].
  - by intros st ->.
  - by intros e st ->.
  - intros st H. rewrite H. split; [reflexivity|]. by eapply poll_polling.
Qed.

(** X19. When the first run of the main program returns with the sent flag
    true, the program ends there: the loop is never entered, so the bot
    does not run, and does not send, a second time. *)
Theorem main_ends_after_first_reply (EMAIL PASSWORD : string) (env0 : Env)
    (ticks : list (option Env)) (b : UciSupportBot) :
  __init__ EMAIL PASSWORD "not today" = Ret b ->
  fst (run_bot env0 (fresh b)) = Ret tt ->
  _email_sent (self (snd (run_bot env0 (fresh b)))) = true ->
  main EMAIL PASSWORD env0 ticks = Finished (snd (run_bot env0 (fresh b))).
Proof.
  intros Hinit Hret Hsent. unfold main. rewrite Hinit.
  destruct (init_flags _ _ _ _ Hinit) as (Hs0 & _).
  destruct (run_bot_invariants env0 (fresh b)) as (_ & _ & _ & Hinv).
  assert (Hfound : _email_found (self (snd (run_bot env0 (fresh b)))) = true).
  { apply Hinv; [|exact Hsent]. unfold sent_implies_found. cbn. congruence. }
  destruct (run_bot env0 (fresh b)) as [[[]|e] st1]; [|discriminate].
  cbn [fst snd] in *. destruct ticks as [|[?|] ?]; cbn [poll bot_summary];
    by rewrite Hsent, Hfound.
Qed.

Lemma main_ends_after_first_reply_witness :
  main "jdoe@uci.edu" "secret" world_ok [Some world_ok; Some world_ok]
  = Finished (snd (run_bot world_ok (fresh main_bot))).
Proof.
  apply (main_ends_after_first_reply "jdoe@uci.edu" "secret" world_ok
           [Some world_ok; Some world_ok] main_bot).
  - reflexivity.
  - by vm_compute.
  - by vm_compute.
Defined.
